(* Shallow embedding of liteflow's Liteflow class (src/src/index.ts):
   the two tables of its schema, the writes its operations issue against
   the store, the in-memory batch buffer with its one-shot flush timer,
   and the read paths getSteps, getWorkflows, getWorkflowStats and
   attachIdentifier.

   Timestamps: the source stores `new Date().toISOString()` strings and the
   store compares them as strings; for years 0000..9999 that order is the
   order of the milliseconds since the epoch, which is what is kept here
   (a Z).  Each operation receives the clock reading it takes (`now`) and
   every uuidv4() it draws as arguments.

   The store (knex + SQL engine) is external.  Its writes are modelled as
   functions on the tables together with an outcome flag (a write that
   fails leaves the tables unchanged and is only logged, as every
   `.catch` in the source does); a SELECT ... ORDER BY returns, in SQL,
   any permutation of the selected rows that is sorted on the key, which
   is modelled as a relation. *)

From Stdlib Require Import ZArith List String Bool Permutation Sorted Lia.
From Stdlib Require PrimFloat SpecFloat FloatOps Uint63.
Import ListNotations.

Open Scope string_scope.
Open Scope list_scope.
Open Scope Z_scope.

(* ------------------------------------------------------------------ *)
(** * Data model (src/src/types.ts, schema of Liteflow.init) *)

Inductive status := Pending | Completed | Failed.

Definition status_eqb (a b : status) : bool :=
  match a, b with
  | Pending, Pending | Completed, Completed | Failed, Failed => true
  | _, _ => false
  end.

Record Identifier := mkIdentifier { key : string; value : string }.

(** The [identifiers] column holds JSON.stringify(identifiers); the JSON
    codec is out of scope, the column is kept as the decoded list. *)
Record Workflow := mkWorkflow {
  id : string;
  name : string;
  identifiers : list Identifier;
  wf_status : status;
  started_at : Z;
  ended_at : option Z
}.

(** Row of workflow_step; the source's field [id] is [step_id] here
    (Rocq record fields share one name space). *)
Record WorkflowStep := mkWorkflowStep {
  step_id : string;
  workflow_id : string;
  step : string;
  data : string;
  created_at : Z
}.

Record DB := mkDB {
  workflow : list Workflow;
  workflow_step : list WorkflowStep
}.

Definition empty_db : DB := mkDB [] [].

(* ------------------------------------------------------------------ *)
(** * Writes issued against the store *)

(** [.where({ id }).update({ status, ended_at })] *)
Definition update_status (wid : string) (st : status) (at_ : Z) (db : DB) : DB :=
  mkDB (map (fun w => if String.eqb (id w) wid
                      then mkWorkflow (id w) (name w) (identifiers w) st
                                      (started_at w) (Some at_)
                      else w) (workflow db))
       (workflow_step db).

(** [.where({ id }).update({ identifiers })] *)
Definition update_identifiers (wid : string) (ids : list Identifier) (db : DB) : DB :=
  mkDB (map (fun w => if String.eqb (id w) wid
                      then mkWorkflow (id w) (name w) ids (wf_status w)
                                      (started_at w) (ended_at w)
                      else w) (workflow db))
       (workflow_step db).

(** Insert into workflow; the primary key makes a duplicate id fail. *)
Definition insert_workflow (w : Workflow) (db : DB) : option DB :=
  if existsb (fun w' => String.eqb (id w') (id w)) (workflow db)
  then None
  else Some (mkDB (workflow db ++ [w]) (workflow_step db)).

(** Multi-row insert into workflow_step (appended in array order). *)
Definition insert_steps (rows : list WorkflowStep) (db : DB) : DB :=
  mkDB (workflow db) (workflow_step db ++ rows).

(** deleteWorkflow's transaction: steps of the workflow, then the row. *)
Definition delete_workflow (wid : string) (db : DB) : DB :=
  mkDB (filter (fun w => negb (String.eqb (id w) wid)) (workflow db))
       (filter (fun s => negb (String.eqb (workflow_id s) wid)) (workflow_step db)).

Inductive Write :=
| WInsertWorkflow (w : Workflow)
| WUpdateStatus (wid : string) (st : status) (at_ : Z)
| WUpdateIdentifiers (wid : string) (ids : list Identifier)
| WInsertSteps (rows : list WorkflowStep)
| WDeleteWorkflow (wid : string)
| WDeleteAll.

(** A write that the store rejects leaves the tables as they were. *)
Definition apply_write (wr : Write) (db : DB) : DB :=
  match wr with
  | WInsertWorkflow w =>
      match insert_workflow w db with Some db' => db' | None => db end
  | WUpdateStatus wid st at_ => update_status wid st at_ db
  | WUpdateIdentifiers wid ids => update_identifiers wid ids db
  | WInsertSteps rows => insert_steps rows db
  | WDeleteWorkflow wid => delete_workflow wid db
  | WDeleteAll => empty_db
  end.

(** Writes resolve one after the other; [ok = false] is a failed write
    (caught and logged). *)
Fixpoint run_writes (ws : list (Write * bool)) (db : DB) : DB :=
  match ws with
  | [] => db
  | (wr, ok) :: ws' => run_writes ws' (if ok then apply_write wr db else db)
  end.

(* ------------------------------------------------------------------ *)
(** * Operations that write workflow rows *)

(** startWorkflow(name, identifiers): with [id := uuidv4()] and
    [startedAt := new Date()], the insert it issues (status defaults to
    'pending', ended_at to NULL). *)
Definition startWorkflow (now : Z) (uuid nm : string) (ids : list Identifier) : Write :=
  WInsertWorkflow (mkWorkflow uuid nm ids Pending now None).

(** completeWorkflow(workflowId): the update it issues, fire-and-forget. *)
Definition completeWorkflow (now : Z) (wid : string) : Write :=
  WUpdateStatus wid Completed now.

(** failWorkflow(workflowId, reason): the update it issues. *)
Definition failWorkflow (now : Z) (wid : string) : Write :=
  WUpdateStatus wid Failed now.

(** The operations of the class that reach the store, each with the write
    it issues; [CInsertSteps] is the multi-row step insert of addSteps and
    flushBatchInserts, [CAttach] attachIdentifier's update. *)
Inductive Call :=
| CStart (now : Z) (uuid nm : string) (ids : list Identifier)
| CComplete (now : Z) (wid : string)
| CFail (now : Z) (wid : string)
| CAttach (wid : string) (ids : list Identifier)
| CInsertSteps (rows : list WorkflowStep)
| CDelete (wid : string)
| CDeleteAll.

Definition write_of (c : Call) : Write :=
  match c with
  | CStart now uuid nm ids => startWorkflow now uuid nm ids
  | CComplete now wid => completeWorkflow now wid
  | CFail now wid => failWorkflow now wid
  | CAttach wid ids => WUpdateIdentifiers wid ids
  | CInsertSteps rows => WInsertSteps rows
  | CDelete wid => WDeleteWorkflow wid
  | CDeleteAll => WDeleteAll
  end.

(** Clock reading a call took, if it took one. *)
Definition call_time (c : Call) : option Z :=
  match c with
  | CStart now _ _ _ | CComplete now _ | CFail now _ => Some now
  | _ => None
  end.

Definition run_calls (cs : list (Call * bool)) (db : DB) : DB :=
  run_writes (map (fun '(c, ok) => (write_of c, ok)) cs) db.

(** The workflows carrying a given id. *)
Definition rows_with_id (wid : string) (db : DB) : list Workflow :=
  filter (fun w => String.eqb (id w) wid) (workflow db).

Definition taken_before (t : Z) (c : Call) : Prop :=
  match call_time c with Some t' => t' <= t | None => True end.

(** The call does not delete the workflow [wid] when it succeeds. *)
Definition keeps (wid : string) (c : Call) : Prop :=
  match c with CDelete w => w <> wid | CDeleteAll => False | _ => True end.

(* ------------------------------------------------------------------ *)
(** * The batch write buffer *)

(** The fields of a Liteflow instance that the write path uses, with the
    JavaScript runtime's armed timers ([armed], handles drawn from
    [next_timer]).  A flush's insert is taken to resolve, successfully or
    not, before the next event. *)
Record State := mkState {
  db : DB;
  pendingSteps : list WorkflowStep;
  batchInsertTimer : option nat;
  armed : list nat;
  next_timer : nat
}.

Definition init_state : State := mkState empty_db [] None [] 0.

(** clearTimeout(t) *)
Definition clearTimeout (t : nat) (ts : list nat) : list nat :=
  remove Nat.eq_dec t ts.

(** flushBatchInserts(): clears an armed timer, returns when the buffer is
    empty, otherwise swaps the buffer out and inserts the swapped rows in
    one statement ([ok] is the outcome of that insert; a failure is only
    logged).  The second component is the insert issued, if any. *)
Definition flushBatchInserts (ok : bool) (s : State) : State * option (list WorkflowStep) :=
  let s1 := match batchInsertTimer s with
            | Some t => mkState (db s) (pendingSteps s) None (clearTimeout t (armed s)) (next_timer s)
            | None => s
            end in
  match pendingSteps s1 with
  | [] => (s1, None)
  | stepsToInsert =>
      (mkState (if ok then insert_steps stepsToInsert (db s1) else db s1) []
               (batchInsertTimer s1) (armed s1) (next_timer s1),
       Some stepsToInsert)
  end.

(** scheduleBatchInsert(): returns if a timer is set, else arms one. *)
Definition scheduleBatchInsert (s : State) : State :=
  match batchInsertTimer s with
  | Some _ => s
  | None => mkState (db s) (pendingSteps s) (Some (next_timer s))
                    (armed s ++ [next_timer s]) (S (next_timer s))
  end.

(** addStep(workflowId, step, data) with [createdAt := now],
    [stepId := sid] and [dat = JSON.stringify(data)]; the step handlers
    do not touch this state. *)
Definition addStep (now : Z) (sid wid stp dat : string) (s : State) : State :=
  scheduleBatchInsert
    (mkState (db s) (pendingSteps s ++ [mkWorkflowStep sid wid stp dat now])
             (batchInsertTimer s) (armed s) (next_timer s)).

(** The runtime fires armed timer [t]: it is no longer armed, and its
    callback sets batchInsertTimer to null and calls flushBatchInserts. *)
Definition onTimer (t : nat) (ok : bool) (s : State) : State * option (list WorkflowStep) :=
  if in_dec Nat.eq_dec t (armed s)
  then flushBatchInserts ok
         (mkState (db s) (pendingSteps s) None (clearTimeout t (armed s)) (next_timer s))
  else (s, None).

Inductive Event :=
| EAddStep (now : Z) (sid wid stp dat : string)
| EFire (t : nat) (ok : bool)
| EFlush (ok : bool).

Definition step_event (e : Event) (s : State) : State :=
  match e with
  | EAddStep now sid wid stp dat => addStep now sid wid stp dat s
  | EFire t ok => fst (onTimer t ok s)
  | EFlush ok => fst (flushBatchInserts ok s)
  end.

Fixpoint run_events (evs : list Event) (s : State) : State :=
  match evs with
  | [] => s
  | e :: evs' => run_events evs' (step_event e s)
  end.

(** The step records the addStep events create, in call order. *)
Fixpoint added (evs : list Event) : list WorkflowStep :=
  match evs with
  | [] => []
  | EAddStep now sid wid stp dat :: evs' => mkWorkflowStep sid wid stp dat now :: added evs'
  | _ :: evs' => added evs'
  end.

(** Every insert issued by the events succeeds. *)
Fixpoint all_ok (evs : list Event) : Prop :=
  match evs with
  | [] => True
  | EAddStep _ _ _ _ _ :: evs' => all_ok evs'
  | EFire _ ok :: evs' | EFlush ok :: evs' => ok = true /\ all_ok evs'
  end.

(** getSteps(workflowId): rows of workflow_step with that workflow_id,
    [.orderBy('created_at', 'asc')].  SQL fixes only the order of the key,
    so a result of the query is any permutation of those rows whose
    created_at values are non-decreasing.  (A failing query is caught by
    wrap and returns [].) *)
Definition steps_of (wid : string) (d : DB) : list WorkflowStep :=
  filter (fun r => String.eqb (workflow_id r) wid) (workflow_step d).

Definition getSteps_result (d : DB) (wid : string) (res : list WorkflowStep) : Prop :=
  Permutation res (steps_of wid d) /\ Sorted Z.le (map created_at res).

(** addSteps(workflowId, steps): one [createdAt := now] for the whole
    call, [uuid i] the i-th uuidv4(), [dat] the JSON.stringify'd data. *)
Fixpoint addSteps_rows (uuid : nat -> string) (i : nat) (wid : string) (now : Z)
         (steps : list (string * string)) : list WorkflowStep :=
  match steps with
  | [] => []
  | (stp, dat) :: rest => mkWorkflowStep (uuid i) wid stp dat now :: addSteps_rows uuid (S i) wid now rest
  end.

(** The insert of addSteps, awaited; [ok] its outcome (a failure is caught
    by wrap). *)
Definition addSteps (now : Z) (uuid : nat -> string) (wid : string)
           (steps : list (string * string)) (ok : bool) (s : State) : State :=
  let stepsToInsert := addSteps_rows uuid 0 wid now steps in
  mkState (if ok then insert_steps stepsToInsert (db s) else db s)
          (pendingSteps s) (batchInsertTimer s) (armed s) (next_timer s).

(** The records the addStep events create for one workflow. *)
Definition added_for (wid : string) (evs : list Event) : list WorkflowStep :=
  filter (fun r => String.eqb (workflow_id r) wid) (added evs).

(** At most one flush timer is armed, and it is the one the instance
    holds in batchInsertTimer. *)
Definition timer_inv (s : State) : Prop :=
  armed s = match batchInsertTimer s with Some t => [t] | None => [] end.

(* ------------------------------------------------------------------ *)
(** * The failure boundary and getWorkflows *)

(** Outcome of an awaited store operation: a value or a thrown error. *)
Inductive result (A : Type) := Ok (a : A) | Error.
Arguments Ok {A} a.
Arguments Error {A}.

Definition bind {A B} (r : result A) (k : A -> result B) : result B :=
  match r with Ok a => k a | Error => Error end.

(** wrap(fn, fallback): the value of fn, or the fallback if it throws. *)
Definition wrap {T} (r : result T) (fallback : T) : T :=
  match r with Ok a => a | Error => fallback end.

(** Options of getWorkflows; [None] is an absent (undefined) field. *)
Record GetWorkflowsOptions := mkOptions {
  opt_status : option status;
  opt_page : option Z;
  opt_pageSize : option Z;
  opt_orderBy : option string;
  opt_order : option string;
  opt_identifier : option Identifier
}.

(** [totalPages] is Math.ceil(total / pageSize), [None] standing for the
    non-finite value of a zero pageSize. *)
Record WorkflowsPage := mkPage {
  workflows : list Workflow;
  total : Z;
  page : Z;
  pageSize : Z;
  totalPages : option Z
}.

Definition default {A} (d : A) (o : option A) : A :=
  match o with Some a => a | None => d end.

Definition ceil_div (a b : Z) : option Z :=
  if Z.eqb b 0 then None else Some (- ((- a) / b)).

Definition getWorkflows_fallback : WorkflowsPage := mkPage [] 0 1 10 (Some 0).

Section GetWorkflows.

(** The store's two queries, with the same predicates (status, identifier
    membership in the backend's JSON syntax): countQuery.count('* as
    total').first() ([None] for a missing row or a null total) and
    dataQuery.orderBy(orderBy, order).limit(pageSize).offset(offset).
    Whether a query throws, an invalid orderBy for instance, is the
    store's business. *)
Variable count_query : option status -> option Identifier -> result (option Z).
Variable data_query : option status -> option Identifier -> string -> string -> Z -> Z ->
                      result (list Workflow).

Definition getWorkflows_body (o : GetWorkflowsOptions) : result WorkflowsPage :=
  let page := default 1 (opt_page o) in
  let pageSize := default 10 (opt_pageSize o) in
  let orderBy := default "started_at" (opt_orderBy o) in
  let order := default "desc" (opt_order o) in
  let offset := (page - 1) * pageSize in
  bind (count_query (opt_status o) (opt_identifier o)) (fun countResult =>
  let total := default 0 countResult in
  bind (data_query (opt_status o) (opt_identifier o) orderBy order pageSize offset) (fun wfs =>
  Ok (mkPage wfs total page pageSize (ceil_div total pageSize)))).

Definition getWorkflows (o : GetWorkflowsOptions) : WorkflowsPage :=
  wrap (getWorkflows_body o) getWorkflows_fallback.

End GetWorkflows.

(* ------------------------------------------------------------------ *)
(** * getWorkflowStats *)

(** JavaScript numbers: the counts are integers and kept as Z, avgSteps
    is computed in IEEE binary64, the primitive floats. *)
Record WorkflowStats := mkStats {
  st_total : Z;
  st_completed : Z;
  st_pending : Z;
  avgSteps : PrimFloat.float
}.

(** SUM(CASE WHEN status = ? THEN 1 ELSE 0 END) *)
Definition count_status (st : status) (ws : list Workflow) : Z :=
  Z.of_nat (List.length (filter (fun w => status_eqb (wf_status w) st) ws)).

(** One group of workflow_step ... GROUP BY workflow_id gets one more row. *)
Fixpoint bump (k : string) (acc : list (string * nat)) : list (string * nat) :=
  match acc with
  | [] => [(k, 1%nat)]
  | (k', n) :: rest => if String.eqb k' k then (k', S n) :: rest else (k', n) :: bump k rest
  end.

(** select('workflow_id').count('* as step_count').groupBy('workflow_id') *)
Definition group_counts (steps : list WorkflowStep) : list (string * nat) :=
  fold_left (fun acc r => bump (workflow_id r) acc) steps [].

Definition sum_counts (g : list (string * nat)) : nat :=
  fold_right (fun '(_, n) acc => (n + acc)%nat) 0%nat g.

(** An integer as a JavaScript number (exact below 2^53; the counts here
    stay far below 2^63, where Uint63.of_Z would wrap). *)
Definition float_of_Z (z : Z) : PrimFloat.float :=
  if z <? 0 then PrimFloat.opp (PrimFloat.of_uint63 (Uint63.of_Z (- z)))
  else PrimFloat.of_uint63 (Uint63.of_Z z).

(** Math.round(y): the integer nearest to the exact value of the double y,
    ties towards +infinity, i.e. floor(y + 1/2); a double with a
    non-negative exponent is already an integer, and NaN, infinities and
    zeros are returned as they are (a negative result rounding to zero
    comes out as +0 instead of -0). *)
Definition js_Math_round (y : PrimFloat.float) : PrimFloat.float :=
  match FloatOps.Prim2SF y with
  | SpecFloat.S754_finite sgn m e =>
      if 0 <=? e then y
      else let sm := if sgn then - Zpos m else Zpos m in
           float_of_Z ((2 * sm + 2 ^ (- e)) / 2 ^ (1 - e))
  | _ => y
  end.

(** Math.round(x * 100) / 100 in doubles. *)
Definition round2 (x : PrimFloat.float) : PrimFloat.float :=
  PrimFloat.div (js_Math_round (PrimFloat.mul x (float_of_Z 100))) (float_of_Z 100).

(** workflowsWithSteps.reduce((sum, w) => sum + Number(w.step_count), 0) *)
Definition js_sum_counts (g : list (string * nat)) : PrimFloat.float :=
  fold_left (fun acc '(_, n) => PrimFloat.add acc (float_of_Z (Z.of_nat n))) g (float_of_Z 0).

Definition getWorkflowStats (d : DB) : WorkflowStats :=
  let workflowsWithSteps := group_counts (workflow_step d) in
  let avg := if Nat.ltb 0 (List.length workflowsWithSteps)
             then PrimFloat.div (js_sum_counts workflowsWithSteps)
                                (float_of_Z (Z.of_nat (List.length workflowsWithSteps)))
             else float_of_Z 0 in
  mkStats (Z.of_nat (List.length (workflow d)))
          (count_status Completed (workflow d))
          (count_status Pending (workflow d))
          (round2 avg).


(** The store of the spec's example: two workflows, one completed with two
    steps, one pending with one. *)
Definition stats_example : DB :=
  mkDB [mkWorkflow "w1" "job" [] Completed 1 (Some 3); mkWorkflow "w2" "job" [] Pending 2 None]
       [mkWorkflowStep "s1" "w1" "a" "null" 1; mkWorkflowStep "s2" "w1" "b" "null" 2;
        mkWorkflowStep "s3" "w2" "a" "null" 2].

(* ------------------------------------------------------------------ *)
(** * getWorkflowByIdentifier and attachIdentifier *)

(** The identifier-membership predicate (json_each / @> / JSON_CONTAINS). *)
Definition has_identifier (k v : string) (ids : list Identifier) : bool :=
  existsb (fun i => String.eqb (key i) k && String.eqb (value i) v) ids.

(** getWorkflowByIdentifier(key, value): [.whereRaw(membership).first()]
    with no ORDER BY, so the store returns any one matching row, or
    undefined when no row matches. *)
Definition getWorkflowByIdentifier_result (k v : string) (d : DB) (o : option Workflow) : Prop :=
  match o with
  | None => forall w, In w (workflow d) -> has_identifier k v (identifiers w) = false
  | Some w => In w (workflow d) /\ has_identifier k v (identifiers w) = true
  end.

(** The JavaScript value passed as newIdentifier: undefined, null, or an
    object whose key / value properties are absent or strings. *)
Inductive JsIdentifier :=
| JsUndefined
| JsNull
| JsObject (k v : option string).

Definition truthy (o : option string) : bool :=
  match o with Some s => negb (String.eqb s "") | None => false end.

(** attachIdentifier(existingKey, existingValue, newIdentifier) after its
    lookup returned [found]; [ok] is the outcome of the identifiers update
    (its failure is caught by wrap, which returns false). *)
Definition attach_found (found : option Workflow) (ni : JsIdentifier) (ok : bool) (d : DB) : bool * DB :=
  match found with
  | None => (false, d)
  | Some w =>
      match ni with
      | JsObject ko vo =>
          match ko, vo with
          | Some k, Some v =>
              if negb (truthy ko) || negb (truthy vo) then (false, d)
              else if has_identifier k v (identifiers w) then (false, d)
              else if ok then (true, update_identifiers (id w) (identifiers w ++ [mkIdentifier k v]) d)
              else (false, d)
          | _, _ => (false, d)
          end
      | _ => (false, d)
      end
  end.

(** The results attachIdentifier can return: its lookup returns any valid
    result of getWorkflowByIdentifier, and the rest of the call runs on
    it. *)
Definition attachIdentifier (ek ev : string) (ni : JsIdentifier) (ok : bool) (d : DB)
           (res : bool * DB) : Prop :=
  exists found, getWorkflowByIdentifier_result ek ev d found /\ res = attach_found found ni ok d.

(** The row update of [update_identifiers]. *)
Definition set_identifiers (i : string) (ids : list Identifier) (w : Workflow) : Workflow :=
  if String.eqb (id w) i
  then mkWorkflow (id w) (name w) ids (wf_status w) (started_at w) (ended_at w)
  else w.

(* ------------------------------------------------------------------ *)
(** * Deletion, per-identifier steps, step counts, shutdown *)

(** deleteWorkflow(workflowId): [.where({ id }).first()], false if absent,
    otherwise the transaction of [delete_workflow]; [ok] is the outcome of
    the transaction (a rolled-back transaction throws, wrap returns
    false). *)
Definition deleteWorkflow (wid : string) (ok : bool) (d : DB) : bool * DB :=
  match find (fun w => String.eqb (id w) wid) (workflow d) with
  | None => (false, d)
  | Some _ => if ok then (true, delete_workflow wid d) else (false, d)
  end.

(** deleteAllWorkflows(): one transaction deleting both tables. *)
Definition deleteAllWorkflows (ok : bool) (d : DB) : bool * DB :=
  if ok then (true, apply_write WDeleteAll d) else (false, d).

(** getStepsByIdentifier(key, value): workflow_step joined with workflow on
    w.id = ws.workflow_id, restricted to workflows carrying the pair, in
    scan order before sorting. *)
Definition join_steps (k v : string) (d : DB) : list WorkflowStep :=
  flat_map (fun r => map (fun _ => r)
                      (filter (fun w => String.eqb (id w) (workflow_id r)
                                        && has_identifier k v (identifiers w)) (workflow d)))
           (workflow_step d).

(** [.orderBy('ws.created_at', 'asc').select('ws.*')]: any permutation of
    the joined rows with non-decreasing created_at. *)
Definition getStepsByIdentifier_result (k v : string) (d : DB) (res : list WorkflowStep) : Prop :=
  Permutation res (join_steps k v d) /\ Sorted Z.le (map created_at res).

Record StepDuration := mkStepDuration {
  sd_workflow_id : string;
  total_duration : Z;
  step_count : Z
}.

(** getAverageStepDuration(): the GROUP BY workflow_id counts, each mapped
    to { workflow_id, total_duration: 0, step_count }. *)
Definition getAverageStepDuration (d : DB) : list StepDuration :=
  map (fun '(wid, n) => mkStepDuration wid 0 (Z.of_nat n)) (group_counts (workflow_step d)).

(** destroy(): flushBatchInserts, then db.destroy() (the release of the
    connection is not part of this state). *)
Definition destroy (ok : bool) (s : State) : State :=
  fst (flushBatchInserts ok s).

(** Order-preserving sub-list. *)
Inductive subseq {A} : list A -> list A -> Prop :=
| subseq_nil : subseq [] []
| subseq_keep x l l' : subseq l l' -> subseq (x :: l) (x :: l')
| subseq_drop x l l' : subseq l l' -> subseq l (x :: l').

(* ------------------------------------------------------------------ *)
(** * Callers: the HTTP server (src/src/server.ts) and the CLI (src/src/cli.ts) *)

(** The result of basic-auth's auth(req): absent, or a name and a pass. *)
Record Credentials := mkCredentials { cred_name : string; cred_pass : string }.

Inductive AuthOutcome := Unauthorized | NextHandler.

(** [x !== process.env.X] for a string x and a variable that may be unset. *)
Definition js_neq_env (x : string) (env : option string) : bool :=
  match env with Some e => negb (String.eqb x e) | None => true end.

(** basicAuth middleware: 401 unless credentials are present and both
    match AUTH_USERNAME / AUTH_PASSWORD. *)
Definition basicAuth (auth_username auth_password : option string)
           (credentials : option Credentials) : AuthOutcome :=
  match credentials with
  | None => Unauthorized
  | Some c =>
      if js_neq_env (cred_name c) auth_username || js_neq_env (cred_pass c) auth_password
      then Unauthorized else NextHandler
  end.

(** JavaScript values as far as truthiness goes. *)
Inductive JsValue :=
| JUndefined | JNull | JBool (b : bool) | JNumber (z : Z) | JString (s : string)
| JObject | JPromise.

Definition truthy_js (x : JsValue) : bool :=
  match x with
  | JUndefined | JNull => false
  | JBool b => b
  | JNumber z => negb (Z.eqb z 0)
  | JString s => negb (String.eqb s "")
  | JObject | JPromise => true
  end.

(** DELETE /workflows/:id: [const result = liteflow.deleteWorkflow(id)]
    is not awaited, so [result] is the Promise of the async method; the
    deletion itself still runs.  Returns the HTTP status and the store
    once the deletion has resolved. *)
Definition delete_route (wid : string) (ok : bool) (d : DB) : Z * DB :=
  let d' := snd (deleteWorkflow wid ok d) in
  let result := JPromise in
  if truthy_js result then (200, d') else (404, d').

(** The 'Failed' row of the CLI stats table: total - completed - pending. *)
Definition cli_failed (s : WorkflowStats) : Z :=
  st_total s - st_completed s - st_pending s.

(* ------------------------------------------------------------------ *)
(** * Lemmas on the workflow table *)

Lemma nodup_map_filter {A B} (g : A -> B) (f : A -> bool) l :
  NoDup (map g l) -> NoDup (map g (filter f l)).
Proof.
  induction l as [|x l IH]; simpl; intros H; [exact H|].
  inversion H as [|? ? Hnin Hnd]; subst.
  destruct (f x); simpl; [|apply IH, Hnd].
  constructor; [|apply IH, Hnd].
  intros Hin; apply Hnin.
  apply in_map_iff in Hin as (y & Hy & Hiny); apply filter_In in Hiny.
  rewrite <- Hy; apply in_map, Hiny.
Qed.

Lemma map_id_update {f : Workflow -> Workflow} l :
  (forall w, id (f w) = id w) -> map id (map f l) = map id l.
Proof. intros H; rewrite map_map; apply map_ext, H. Qed.

(** The primary key: the class's writes never give two rows one id. *)
Lemma write_ids_nodup c db :
  NoDup (map id (workflow db)) -> NoDup (map id (workflow (apply_write (write_of c) db))).
Proof.
  intros Hnd.
  destruct c as [now uuid nm ids|now wid|now wid|wid ids|rows|wid|]; simpl.
  - unfold startWorkflow, apply_write, insert_workflow.
    destruct existsb eqn:Ex; simpl; [exact Hnd|].
    rewrite map_app; simpl.
    apply (Permutation_NoDup (Permutation_cons_append _ uuid)).
    constructor; [|exact Hnd].
    intros Hin; apply in_map_iff in Hin as (w & Hw & Hin).
    assert (Ht : existsb (fun w' => String.eqb (id w') uuid) (workflow db) = true)
      by (apply existsb_exists; exists w; split; [exact Hin | rewrite Hw; apply String.eqb_refl]).
    simpl in Ex; congruence.
  - rewrite map_id_update; [exact Hnd|]; intros w; destruct String.eqb; reflexivity.
  - rewrite map_id_update; [exact Hnd|]; intros w; destruct String.eqb; reflexivity.
  - rewrite map_id_update; [exact Hnd|]; intros w; destruct String.eqb; reflexivity.
  - exact Hnd.
  - apply nodup_map_filter, Hnd.
  - constructor.
Qed.

Lemma run_ids_nodup cs db :
  NoDup (map id (workflow db)) -> NoDup (map id (workflow (run_calls cs db))).
Proof.
  revert db; induction cs as [|[c ok] cs IH]; intros db Hnd; simpl; [exact Hnd|].
  unfold run_calls in IH; apply IH.
  destruct ok; [apply write_ids_nodup|]; exact Hnd.
Qed.

Lemma rows_with_id_unique x l :
  NoDup (map id l) -> In x l -> filter (fun w => String.eqb (id w) (id x)) l = [x].
Proof.
  induction l as [|a l IH]; simpl; intros Hnd Hin; [contradiction|].
  inversion Hnd as [|? ? Hnin Hnd']; subst.
  destruct Hin as [<-|Hin].
  - rewrite String.eqb_refl; f_equal.
    clear IH Hnd Hnd'; induction l as [|b l IHl]; simpl; [reflexivity|].
    simpl in Hnin.
    destruct (String.eqb_spec (id b) (id a)) as [E|E]; [exfalso; tauto|].
    apply IHl; tauto.
  - destruct (String.eqb_spec (id a) (id x)) as [E|E].
    + exfalso; apply Hnin; rewrite E; apply in_map, Hin.
    + exact (IH Hnd' Hin).
Qed.

(** A row that has left 'pending', with ended_at set: a write that does not
    delete its workflow leaves a row of the same id and started_at, still
    not pending and still ended. *)
Definition left_pending (x : Workflow) (wid : string) (t : Z) : Prop :=
  id x = wid /\ started_at x = t /\ wf_status x <> Pending /\ ended_at x <> None.

Lemma write_keeps_left c db x wid t :
  keeps wid c -> In x (workflow db) -> left_pending x wid t ->
  exists x', In x' (workflow (apply_write (write_of c) db)) /\ left_pending x' wid t.
Proof.
  intros Hk Hin Hx.
  destruct c as [now uuid nm ids|now w|now w|w ids|rows|w|]; simpl in *.
  - unfold startWorkflow, apply_write, insert_workflow.
    exists x; split; [|exact Hx].
    destruct existsb; simpl; [exact Hin | apply in_or_app; left; exact Hin].
  - exists (if String.eqb (id x) w
            then mkWorkflow (id x) (name x) (identifiers x) Completed (started_at x) (Some now) else x).
    split; [apply in_map_iff; exists x; split; [reflexivity | exact Hin]|].
    destruct (String.eqb (id x) w); [|exact Hx].
    unfold left_pending in *; simpl; intuition congruence.
  - exists (if String.eqb (id x) w
            then mkWorkflow (id x) (name x) (identifiers x) Failed (started_at x) (Some now) else x).
    split; [apply in_map_iff; exists x; split; [reflexivity | exact Hin]|].
    destruct (String.eqb (id x) w); [|exact Hx].
    unfold left_pending in *; simpl; intuition congruence.
  - exists (if String.eqb (id x) w
            then mkWorkflow (id x) (name x) ids (wf_status x) (started_at x) (ended_at x) else x).
    split; [apply in_map_iff; exists x; split; [reflexivity | exact Hin]|].
    destruct (String.eqb (id x) w); [|exact Hx].
    unfold left_pending in *; simpl; exact Hx.
  - exists x; split; assumption.
  - exists x; split; [|exact Hx].
    apply filter_In; split; [exact Hin|].
    destruct Hx as [Hid _]; subst wid.
    destruct (String.eqb_spec (id x) w) as [E|_]; [congruence | reflexivity].
  - contradiction.
Qed.

Lemma run_keeps_left cs db x wid t :
  Forall (fun '(c, ok) => ok = true -> keeps wid c) cs ->
  In x (workflow db) -> left_pending x wid t ->
  exists x', In x' (workflow (run_calls cs db)) /\ left_pending x' wid t.
Proof.
  revert db x; induction cs as [|[c ok] cs IH]; intros db x Hk Hin Hx; simpl.
  - exists x; split; assumption.
  - inversion Hk as [|? ? Hc Hcs]; subst.
    unfold run_calls in IH.
    destruct ok.
    + destruct (write_keeps_left c db x wid t (Hc eq_refl) Hin Hx) as (x1 & Hin1 & Hx1).
      exact (IH _ _ Hcs Hin1 Hx1).
    + exact (IH _ _ Hcs Hin Hx).
Qed.

Lemma write_started_before t c db :
  taken_before t c ->
  Forall (fun w => started_at w <= t) (workflow db) ->
  Forall (fun w => started_at w <= t) (workflow (apply_write (write_of c) db)).
Proof.
  intros Ht Hall.
  destruct c as [now uuid nm ids|now wid|now wid|wid ids|rows|wid|]; simpl in *.
  - unfold startWorkflow, apply_write, insert_workflow.
    destruct existsb; simpl; [exact Hall|].
    apply Forall_app; split; [exact Hall|].
    constructor; [simpl; exact Ht | constructor].
  - apply Forall_map. eapply Forall_impl; [|exact Hall].
    intros w Hw; destruct String.eqb; simpl; exact Hw.
  - apply Forall_map. eapply Forall_impl; [|exact Hall].
    intros w Hw; destruct String.eqb; simpl; exact Hw.
  - apply Forall_map. eapply Forall_impl; [|exact Hall].
    intros w Hw; destruct String.eqb; simpl; exact Hw.
  - exact Hall.
  - apply Forall_forall; intros w Hw; apply filter_In in Hw.
    exact (proj1 (Forall_forall _ _) Hall w (proj1 Hw)).
  - constructor.
Qed.

Lemma run_started_before t cs db :
  Forall (fun '(c, _) => taken_before t c) cs ->
  Forall (fun w => started_at w <= t) (workflow db) ->
  Forall (fun w => started_at w <= t) (workflow (run_calls cs db)).
Proof.
  revert db; induction cs as [|[c ok] cs IH]; intros db Ht Hall; simpl; [exact Hall|].
  inversion Ht as [|? ? Hc Hcs]; subst.
  unfold run_calls in IH; apply IH; [exact Hcs|].
  destruct ok; [apply write_started_before|]; assumption.
Qed.

Lemma rows_with_id_update_status wid st t db :
  rows_with_id wid (update_status wid st t db) =
  map (fun w => mkWorkflow (id w) (name w) (identifiers w) st (started_at w) (Some t))
      (rows_with_id wid db).
Proof.
  unfold rows_with_id, update_status; simpl.
  induction (workflow db) as [|w ws IH]; simpl; [reflexivity|].
  destruct (String.eqb (id w) wid) eqn:E; simpl.
  - rewrite E; simpl; f_equal; exact IH.
  - rewrite E; exact IH.
Qed.

Definition ended_set (w : Workflow) : Prop :=
  wf_status w <> Pending -> ended_at w <> None.

Lemma write_ended_set c db :
  Forall ended_set (workflow db) ->
  Forall ended_set (workflow (apply_write (write_of c) db)).
Proof.
  intros Hall.
  destruct c as [now uuid nm ids|now wid|now wid|wid ids|rows|wid|]; simpl.
  - unfold startWorkflow, apply_write, insert_workflow.
    destruct existsb; simpl; [exact Hall|].
    apply Forall_app; split; [exact Hall|].
    constructor; [unfold ended_set; simpl; congruence | constructor].
  - apply Forall_map. eapply Forall_impl; [|exact Hall].
    intros w Hw; destruct String.eqb; [unfold ended_set; simpl; congruence | exact Hw].
  - apply Forall_map. eapply Forall_impl; [|exact Hall].
    intros w Hw; destruct String.eqb; [unfold ended_set; simpl; congruence | exact Hw].
  - apply Forall_map. eapply Forall_impl; [|exact Hall].
    intros w Hw; destruct String.eqb; [exact Hw | exact Hw].
  - exact Hall.
  - apply Forall_forall; intros w Hw; apply filter_In in Hw.
    exact (proj1 (Forall_forall _ _) Hall w (proj1 Hw)).
  - constructor.
Qed.

Lemma run_ended_set cs db :
  Forall ended_set (workflow db) ->
  Forall ended_set (workflow (run_calls cs db)).
Proof.
  revert db; induction cs as [|[c ok] cs IH]; intros db Hall; simpl; [exact Hall|].
  unfold run_calls in IH; apply IH.
  destruct ok; [apply write_ended_set|]; assumption.
Qed.

Lemma run_calls_app cs1 cs2 db :
  run_calls (cs1 ++ cs2) db = run_calls cs2 (run_calls cs1 db).
Proof.
  revert db; induction cs1 as [|[c ok] cs1 IH]; intros db; simpl; [reflexivity|].
  unfold run_calls in *; simpl; apply IH.
Qed.

(* ------------------------------------------------------------------ *)
(** * Claims on the workflow status *)

(** C2 (counterexample): a workflow started, then completed, is moved
    again by a later failWorkflow: its status goes from 'completed' to
    'failed' and its ended_at from 2 to 3. *)
Lemma C2_status_changes_twice :
  let db1 := run_calls [(CStart 1 "w" "job" [], true); (CComplete 2 "w", true)] empty_db in
  rows_with_id "w" db1 = [mkWorkflow "w" "job" [] Completed 1 (Some 2)] /\
  rows_with_id "w" (apply_write (failWorkflow 3 "w") db1)
    = [mkWorkflow "w" "job" [] Failed 1 (Some 3)].
Proof. split; reflexivity. Qed.

(** C2 (amended): on a store built by the class's own writes, once a
    workflow row has left 'pending', every later sequence of store writes
    (each succeeding or failing) in which no successful write deletes it
    -- neither deleteWorkflow of its id nor deleteAllWorkflows; deletes of
    other workflows are allowed -- leaves exactly one row with its id,
    with the same started_at, still not 'pending' and with ended_at set.
    Its status may still switch between 'completed' and 'failed'. *)
Theorem C2_never_back_to_pending (cs0 cs : list (Call * bool)) (r : Workflow) :
  Forall (fun '(c, ok) => ok = true -> keeps (id r) c) cs ->
  In r (workflow (run_calls cs0 empty_db)) ->
  wf_status r <> Pending ->
  exists r', rows_with_id (id r) (run_calls (cs0 ++ cs) empty_db) = [r'] /\
             id r' = id r /\ started_at r' = started_at r /\
             wf_status r' <> Pending /\ ended_at r' <> None.
Proof.
  intros Hk Hin Hst.
  rewrite run_calls_app.
  assert (Hend : ended_at r <> None).
  { pose proof (run_ended_set cs0 empty_db (Forall_nil _)) as Hinv.
    rewrite Forall_forall in Hinv; exact (Hinv r Hin Hst). }
  destruct (run_keeps_left cs _ r (id r) (started_at r) Hk Hin)
    as (r' & Hin' & Hid & E2 & E3 & E4); [repeat split; assumption|].
  exists r'; repeat split; auto.
  unfold rows_with_id; rewrite <- Hid.
  apply rows_with_id_unique; [|exact Hin'].
  apply run_ids_nodup, run_ids_nodup; constructor.
Qed.

Lemma C2_never_back_to_pending_witness :
  exists r', rows_with_id "w" (run_calls
      ([(CStart 1 "w" "job" [], true); (CComplete 2 "w", true)] ++
       [(CStart 2 "v" "job" [], true); (CDelete "v", true);
        (CFail 3 "w", true); (CDelete "w", false)])
      empty_db) = [r'] /\
    id r' = "w" /\ started_at r' = 1 /\ wf_status r' <> Pending /\ ended_at r' <> None.
Proof.
  apply (C2_never_back_to_pending
           [(CStart 1 "w" "job" [], true); (CComplete 2 "w", true)]
           [(CStart 2 "v" "job" [], true); (CDelete "v", true);
            (CFail 3 "w", true); (CDelete "w", false)]
           (mkWorkflow "w" "job" [] Completed 1 (Some 2))).
  - repeat constructor; simpl; try discriminate; intros _ _; exact I.
  - simpl; left; reflexivity.
  - simpl; discriminate.
Defined.

(** C5: completeWorkflow writes status 'completed' and ended_at without
    looking at the current status: on a store built by any run of the
    class's writes (whatever they did to the workflow, failing it
    included), once its update resolves every row of the workflow is
    the old row with status 'completed' and ended_at set to the clock
    reading of the call; when every earlier call read the clock no later
    than completeWorkflow did, that ended_at is >= started_at. *)
Theorem C5_completeWorkflow_overwrites (cs : list (Call * bool)) (t : Z) (wid : string) :
  Forall (fun '(c, _) => taken_before t c) cs ->
  rows_with_id wid (run_calls cs empty_db) <> [] ->
  let db := run_calls cs empty_db in
  let db' := apply_write (completeWorkflow t wid) db in
  rows_with_id wid db' =
    map (fun w => mkWorkflow (id w) (name w) (identifiers w) Completed (started_at w) (Some t))
        (rows_with_id wid db) /\
  rows_with_id wid db' <> [] /\
  Forall (fun w => wf_status w = Completed /\ ended_at w = Some t /\ started_at w <= t)
         (rows_with_id wid db').
Proof.
  intros Ht Hne db db'.
  assert (Hmap : rows_with_id wid db' =
    map (fun w => mkWorkflow (id w) (name w) (identifiers w) Completed (started_at w) (Some t))
        (rows_with_id wid db)) by apply rows_with_id_update_status.
  pose proof (run_started_before t cs empty_db Ht (Forall_nil _)) as Hst.
  split; [exact Hmap|]; split.
  - rewrite Hmap; intros Hnil; apply Hne; apply map_eq_nil in Hnil; exact Hnil.
  - rewrite Hmap; apply Forall_map; apply Forall_forall; intros w Hw; simpl.
    apply filter_In in Hw.
    repeat split; auto.
    exact (proj1 (Forall_forall _ _) Hst w (proj1 Hw)).
Qed.

Lemma C5_completeWorkflow_overwrites_witness :
  let cs := [(CStart 1 "w" "job" [], true); (CFail 2 "w", true)] in
  let db' := apply_write (completeWorkflow 5 "w") (run_calls cs empty_db) in
  rows_with_id "w" db' <> [] /\
  Forall (fun w => wf_status w = Completed /\ ended_at w = Some 5 /\ started_at w <= 5)
         (rows_with_id "w" db').
Proof.
  intros cs db'.
  destruct (C5_completeWorkflow_overwrites cs 5 "w") as (_ & H1 & H2).
  - constructor; [ | constructor; [ | constructor]]; unfold taken_before; simpl; lia.
  - simpl; discriminate.
  - split; [exact H1 | exact H2].
Defined.

(* ------------------------------------------------------------------ *)
(** * Lemmas on the batch write buffer *)

Definition stored_and_pending (s : State) : list WorkflowStep :=
  workflow_step (db s) ++ pendingSteps s.

Lemma flush_conserves s :
  stored_and_pending (fst (flushBatchInserts true s)) = stored_and_pending s.
Proof.
  unfold flushBatchInserts, stored_and_pending.
  destruct (batchInsertTimer s); simpl;
    destruct (pendingSteps s) eqn:E; simpl; try rewrite E; try reflexivity;
    rewrite app_nil_r; reflexivity.
Qed.

Lemma flush_empties ok s : pendingSteps (fst (flushBatchInserts ok s)) = [].
Proof.
  unfold flushBatchInserts.
  destruct (batchInsertTimer s); simpl; destruct (pendingSteps s) eqn:E; simpl;
    try rewrite E; reflexivity.
Qed.

Lemma schedule_same_data s :
  db (scheduleBatchInsert s) = db s /\ pendingSteps (scheduleBatchInsert s) = pendingSteps s.
Proof. unfold scheduleBatchInsert; destruct (batchInsertTimer s); split; reflexivity. Qed.

Lemma run_conserves evs s :
  all_ok evs ->
  stored_and_pending (run_events evs s) = stored_and_pending s ++ added evs.
Proof.
  revert s; induction evs as [|e evs IH]; intros s Hok; simpl.
  - rewrite app_nil_r; reflexivity.
  - destruct e as [now sid wid stp dat|t ok|ok]; simpl in Hok.
    + rewrite (IH _ Hok).
      unfold stored_and_pending, step_event, addStep, scheduleBatchInsert.
      destruct (batchInsertTimer s); cbn; rewrite <- !app_assoc; reflexivity.
    + destruct Hok as [-> Hok].
      rewrite (IH _ Hok); f_equal.
      unfold step_event, onTimer; destruct (in_dec Nat.eq_dec t (armed s)); [|reflexivity].
      rewrite flush_conserves; reflexivity.
    + destruct Hok as [-> Hok].
      rewrite (IH _ Hok); unfold step_event; rewrite flush_conserves; reflexivity.
Qed.

Lemma StronglySorted_map_filter {A} (R : Z -> Z -> Prop) (f : A -> Z) (p : A -> bool) l :
  StronglySorted R (map f l) -> StronglySorted R (map f (filter p l)).
Proof.
  induction l as [|x l IH]; intros H; simpl; [constructor|].
  inversion H as [|? ? Hl Hx]; subst.
  destruct (p x); simpl; [|exact (IH Hl)].
  constructor; [exact (IH Hl)|].
  apply Forall_forall; intros z Hz.
  apply in_map_iff in Hz as (y & <- & Hy); apply filter_In in Hy.
  exact (proj1 (Forall_forall _ _) Hx (f y) (in_map f _ _ (proj1 Hy))).
Qed.

Lemma Sorted_le_filter {A} (f : A -> Z) (p : A -> bool) l :
  Sorted Z.le (map f l) -> Sorted Z.le (map f (filter p l)).
Proof.
  intros H; apply StronglySorted_Sorted, StronglySorted_map_filter.
  apply Sorted_StronglySorted; [exact Z.le_trans | exact H].
Qed.

(** A sorted result is the unique one when the keys strictly increase. *)
Lemma sorted_perm_unique (l l' : list WorkflowStep) :
  StronglySorted Z.le (map created_at l) ->
  StronglySorted Z.lt (map created_at l') ->
  Permutation l l' -> l = l'.
Proof.
  revert l; induction l' as [|y ys IH]; intros l Hl Hl' Hp.
  - apply Permutation_nil; symmetry; exact Hp.
  - destruct l as [|x xs].
    + exfalso; exact (Permutation_nil_cons Hp).
    + simpl in Hl, Hl'.
      inversion Hl as [|? ? Hxs Hx]; inversion Hl' as [|? ? Hys Hy]; subst.
      assert (Hin1 : In x (y :: ys)) by (apply (Permutation_in _ Hp); left; reflexivity).
      assert (Hin2 : In y (x :: xs)) by (apply (Permutation_in _ (Permutation_sym Hp)); left; reflexivity).
      assert (x = y) as <-.
      { destruct Hin1 as [->|Hin1]; [reflexivity|].
        destruct Hin2 as [->|Hin2]; [reflexivity|].
        pose proof (proj1 (Forall_forall _ _) Hy _ (in_map created_at _ _ Hin1)).
        pose proof (proj1 (Forall_forall _ _) Hx _ (in_map created_at _ _ Hin2)).
        simpl in *; lia. }
      f_equal; apply IH; [exact Hxs | exact Hys | exact (Permutation_cons_inv Hp)].
Qed.

(** Swapping two rows with the same created_at keeps a getSteps result. *)
Lemma getSteps_swap_equal d wid a b c r1 r2 :
  created_at r1 = created_at r2 ->
  getSteps_result d wid (a ++ r1 :: b ++ r2 :: c) ->
  getSteps_result d wid (a ++ r2 :: b ++ r1 :: c).
Proof.
  intros Heq [Hp Hs]; split.
  - eapply Permutation_trans; [|exact Hp].
    apply Permutation_app_head.
    eapply Permutation_trans; [apply Permutation_cons; [reflexivity|]; symmetry; apply Permutation_middle|].
    eapply Permutation_trans; [apply perm_swap|].
    apply Permutation_cons; [reflexivity | apply Permutation_middle].
  - rewrite !map_app in *; simpl in *; rewrite !map_app in *; simpl in *.
    rewrite <- Heq; rewrite Heq at 2; exact Hs.
Qed.

Lemma run_events_app evs1 evs2 s :
  run_events (evs1 ++ evs2) s = run_events evs2 (run_events evs1 s).
Proof. revert s; induction evs1 as [|e evs1 IH]; intros s; simpl; [reflexivity | apply IH]. Qed.

Lemma all_ok_app evs1 evs2 : all_ok evs1 -> all_ok evs2 -> all_ok (evs1 ++ evs2).
Proof.
  intros H1 H2; induction evs1 as [|e evs1 IH]; simpl; [exact H2|].
  destruct e; simpl in H1 |- *.
  - apply IH; exact H1.
  - destruct H1 as [? H1]; split; [assumption | apply IH; exact H1].
  - destruct H1 as [? H1]; split; [assumption | apply IH; exact H1].
Qed.

Lemma added_app evs1 evs2 : added (evs1 ++ evs2) = added evs1 ++ added evs2.
Proof.
  induction evs1 as [|e evs1 IH]; simpl; [reflexivity|].
  destruct e; simpl; rewrite ?IH; reflexivity.
Qed.

Lemma clearTimeout_self t : clearTimeout t [t] = [].
Proof. unfold clearTimeout; simpl; destruct (Nat.eq_dec t t); [reflexivity | contradiction]. Qed.

Lemma flush_timer ok s :
  timer_inv s ->
  batchInsertTimer (fst (flushBatchInserts ok s)) = None /\ armed (fst (flushBatchInserts ok s)) = [].
Proof.
  unfold timer_inv, flushBatchInserts; intros H.
  destruct (batchInsertTimer s) as [t|] eqn:Et; simpl.
  - rewrite H, clearTimeout_self; destruct (pendingSteps s); simpl; split; reflexivity.
  - destruct (pendingSteps s); simpl; split; assumption.
Qed.

Lemma step_timer_inv e s : timer_inv s -> timer_inv (step_event e s).
Proof.
  intros H; destruct e as [now sid wid stp dat|t ok|ok]; simpl.
  - unfold addStep, scheduleBatchInsert, timer_inv in *; simpl in *.
    destruct (batchInsertTimer s); simpl; [exact H | rewrite H; reflexivity].
  - unfold onTimer; destruct (in_dec Nat.eq_dec t (armed s)) as [Hin|Hin]; [|exact H].
    assert (Hs : timer_inv (mkState (db s) (pendingSteps s) None (clearTimeout t (armed s)) (next_timer s))).
    { unfold timer_inv in *; simpl; rewrite H in *.
      destruct (batchInsertTimer s) as [t'|]; [|contradiction].
      destruct Hin as [->|[]]; apply clearTimeout_self. }
    destruct (flush_timer ok _ Hs) as [E1 E2]; unfold timer_inv; rewrite E1, E2; reflexivity.
  - destruct (flush_timer ok s H) as [E1 E2]; unfold timer_inv; rewrite E1, E2; reflexivity.
Qed.

Lemma run_timer_inv evs s : timer_inv s -> timer_inv (run_events evs s).
Proof.
  revert s; induction evs as [|e evs IH]; intros s H; simpl; [exact H|].
  apply IH, step_timer_inv, H.
Qed.

Lemma addSteps_rows_fields uuid i wid now steps :
  Forall (fun r => created_at r = now /\ workflow_id r = wid) (addSteps_rows uuid i wid now steps).
Proof.
  revert i; induction steps as [|[stp dat] steps IH]; intros i; simpl; constructor; auto.
Qed.

(* ------------------------------------------------------------------ *)
(** * Claims on the batch write buffer *)

(** C1 (code bug, failing input): two addStep calls that read the same
    millisecond, then flushBatchInserts: getSteps may return them in the
    reverse of call order, since its ORDER BY created_at has no
    tie-break, against the stable order the claim states. *)
Lemma C1_same_millisecond_reordered :
  let evs := [EAddStep 5 "s1" "w" "a" "null"; EAddStep 5 "s2" "w" "b" "null"] in
  let d := db (run_events (evs ++ [EFlush true]) init_state) in
  added_for "w" evs = [mkWorkflowStep "s1" "w" "a" "null" 5; mkWorkflowStep "s2" "w" "b" "null" 5] /\
  getSteps_result d "w" [mkWorkflowStep "s2" "w" "b" "null" 5; mkWorkflowStep "s1" "w" "a" "null" 5] /\
  [mkWorkflowStep "s2" "w" "b" "null" 5; mkWorkflowStep "s1" "w" "a" "null" 5] <> added_for "w" evs.
Proof.
  split; [reflexivity|]; split.
  - split.
    + vm_compute. apply perm_swap.
    + repeat constructor; simpl; lia.
  - vm_compute. discriminate.
Qed.

(** C1 (what the code guarantees): starting with an empty buffer and no stored step for
    the workflow, after any interleaving of addStep calls (on any
    workflows, with a non-decreasing clock) and timer firings, followed by
    flushBatchInserts, and with every batch insert succeeding, the stored
    steps of the workflow are exactly its added steps in call order; that
    list is a valid getSteps result, every result is a created_at-sorted
    permutation of it, and it is the only result when the workflow's
    steps read strictly increasing clock values. *)
Theorem C1_flush_then_getSteps (s : State) (evs : list Event) (wid : string) :
  pendingSteps s = [] ->
  steps_of wid (db s) = [] ->
  all_ok evs ->
  Sorted Z.le (map created_at (added evs)) ->
  let d := db (run_events (evs ++ [EFlush true]) s) in
  steps_of wid d = added_for wid evs /\
  getSteps_result d wid (added_for wid evs) /\
  (Sorted Z.lt (map created_at (added_for wid evs)) ->
   forall res, getSteps_result d wid res -> res = added_for wid evs).
Proof.
  intros Hpend Hold Hok Hclock d.
  assert (Hall : all_ok (evs ++ [EFlush true])) by (apply all_ok_app; simpl; auto).
  pose proof (run_conserves _ s Hall) as Hc.
  assert (Hemp : pendingSteps (run_events (evs ++ [EFlush true]) s) = []).
  { rewrite run_events_app; simpl; apply flush_empties. }
  unfold stored_and_pending in Hc; rewrite Hemp, Hpend, !app_nil_r, added_app in Hc.
  simpl in Hc; rewrite app_nil_r in Hc.
  assert (Hsteps : steps_of wid d = added_for wid evs).
  { unfold steps_of, d, added_for; rewrite Hc, filter_app.
    unfold steps_of in Hold; rewrite Hold; reflexivity. }
  split; [exact Hsteps|]; split.
  - unfold getSteps_result; rewrite Hsteps; split; [reflexivity|].
    apply Sorted_le_filter; exact Hclock.
  - intros Hlt res [Hp Hs].
    rewrite Hsteps in Hp.
    apply sorted_perm_unique; [| |exact Hp].
    + apply Sorted_StronglySorted; [exact Z.le_trans | exact Hs].
    + apply Sorted_StronglySorted; [exact Z.lt_trans | exact Hlt].
Qed.

Lemma C1_flush_then_getSteps_witness :
  let evs := [EAddStep 1 "s1" "w" "a" "null"; EFire 0 true; EAddStep 2 "s2" "w" "b" "null"] in
  let d := db (run_events (evs ++ [EFlush true]) init_state) in
  steps_of "w" d = [mkWorkflowStep "s1" "w" "a" "null" 1; mkWorkflowStep "s2" "w" "b" "null" 2] /\
  forall res, getSteps_result d "w" res ->
    res = [mkWorkflowStep "s1" "w" "a" "null" 1; mkWorkflowStep "s2" "w" "b" "null" 2].
Proof.
  intros evs d.
  destruct (C1_flush_then_getSteps init_state evs "w") as (H1 & _ & H3).
  - reflexivity.
  - reflexivity.
  - simpl; auto.
  - simpl; repeat constructor; lia.
  - split; [exact H1|]. apply H3. simpl; repeat constructor; lia.
Defined.

(** C8: from a fresh instance, after any sequence of addStep calls, timer
    firings and flushes, the runtime holds at most one armed flush timer,
    the one in batchInsertTimer; addStep while a timer is set leaves the
    timer and the runtime's armed timers as they were; when the timer
    fires, its callback clears batchInsertTimer before flushing, so the
    flush arms nothing nor cancels anything, and the instance ends with
    no timer, an empty buffer, and the former buffer issued as the
    insert. *)
Theorem C8_single_flush_timer :
  (forall evs, timer_inv (run_events evs init_state) /\
               List.length (armed (run_events evs init_state)) <= 1)%nat /\
  (forall s t now sid wid stp dat,
     batchInsertTimer s = Some t ->
     batchInsertTimer (addStep now sid wid stp dat s) = Some t /\
     armed (addStep now sid wid stp dat s) = armed s) /\
  (forall s t ok,
     timer_inv s -> In t (armed s) ->
     onTimer t ok s =
       flushBatchInserts ok (mkState (db s) (pendingSteps s) None [] (next_timer s)) /\
     batchInsertTimer (fst (onTimer t ok s)) = None /\
     armed (fst (onTimer t ok s)) = [] /\
     pendingSteps (fst (onTimer t ok s)) = [] /\
     snd (onTimer t ok s) = match pendingSteps s with [] => None | p => Some p end).
Proof.
  split; [|split].
  - intros evs.
    pose proof (run_timer_inv evs init_state eq_refl) as H.
    split; [exact H|].
    unfold timer_inv in H; rewrite H; destruct batchInsertTimer; simpl; lia.
  - intros s t now sid wid stp dat Ht.
    unfold addStep, scheduleBatchInsert; simpl; rewrite Ht; split; reflexivity.
  - intros s t ok Hinv Hin.
    unfold timer_inv in Hinv.
    destruct (batchInsertTimer s) as [t'|] eqn:Et; rewrite Hinv in Hin; [|contradiction].
    destruct Hin as [Heq|[]]; subst t'.
    assert (Hon : onTimer t ok s =
       flushBatchInserts ok (mkState (db s) (pendingSteps s) None [] (next_timer s))).
    { unfold onTimer; rewrite Hinv.
      destruct (in_dec Nat.eq_dec t [t]) as [_|Hn]; [|exfalso; apply Hn; left; reflexivity].
      rewrite clearTimeout_self; reflexivity. }
    rewrite Hon; split; [reflexivity|].
    unfold flushBatchInserts; simpl.
    destruct (pendingSteps s); simpl; repeat split; reflexivity.
Qed.

Lemma C8_single_flush_timer_witness :
  timer_inv (run_events [EAddStep 1 "s1" "w" "a" "null"; EAddStep 2 "s2" "w" "b" "null"] init_state) /\
  batchInsertTimer (addStep 2 "s2" "w" "b" "null" (addStep 1 "s1" "w" "a" "null" init_state)) = Some 0%nat /\
  snd (onTimer 0 true (addStep 1 "s1" "w" "a" "null" init_state)) =
    Some [mkWorkflowStep "s1" "w" "a" "null" 1].
Proof.
  destruct C8_single_flush_timer as (H1 & H2 & H3).
  split; [exact (proj1 (H1 _))|]; split.
  - exact (proj1 (H2 (addStep 1 "s1" "w" "a" "null" init_state) 0%nat 2 "s2" "w" "b" "null" eq_refl)).
  - destruct (H3 (addStep 1 "s1" "w" "a" "null" init_state) 0%nat true) as (_ & _ & _ & _ & H).
    + reflexivity.
    + left; reflexivity.
    + exact H.
Defined.

(** C9: flushBatchInserts on an empty buffer issues no insert and leaves
    the stored workflows and steps unchanged (its only effect is to clear
    an armed timer). *)
Theorem C9_flush_empty_no_write (ok : bool) (s : State) :
  pendingSteps s = [] ->
  snd (flushBatchInserts ok s) = None /\
  db (fst (flushBatchInserts ok s)) = db s /\
  pendingSteps (fst (flushBatchInserts ok s)) = [].
Proof.
  intros H; unfold flushBatchInserts.
  destruct (batchInsertTimer s); simpl; rewrite H; simpl; repeat split; assumption.
Qed.

Lemma C9_flush_empty_no_write_witness :
  let s := mkState (mkDB [] [mkWorkflowStep "s1" "w" "a" "null" 1]) [] (Some 0%nat) [0%nat] 1 in
  snd (flushBatchInserts true s) = None /\ db (fst (flushBatchInserts true s)) = db s.
Proof.
  intros s.
  destruct (C9_flush_empty_no_write true s eq_refl) as (H1 & H2 & _).
  split; assumption.
Defined.

(** C10: every row built by one addSteps call carries the clock reading
    taken once at the start of the call (and the call's workflow id), so
    swapping any two rows of that batch in a getSteps result gives
    another getSteps result: created_at does not fix their order. *)
Theorem C10_addSteps_one_timestamp (now : Z) (uuid : nat -> string) (wid : string)
        (steps : list (string * string)) (ok : bool) (s : State) :
  let rows := addSteps_rows uuid 0 wid now steps in
  let d := db (addSteps now uuid wid steps ok s) in
  Forall (fun r => created_at r = now /\ workflow_id r = wid) rows /\
  (forall a b c r1 r2, In r1 rows -> In r2 rows ->
     getSteps_result d wid (a ++ r1 :: b ++ r2 :: c) ->
     getSteps_result d wid (a ++ r2 :: b ++ r1 :: c)).
Proof.
  intros rows d.
  pose proof (addSteps_rows_fields uuid 0 wid now steps) as Hf.
  split; [exact Hf|].
  intros a b c r1 r2 H1 H2.
  apply getSteps_swap_equal.
  rewrite Forall_forall in Hf.
  rewrite (proj1 (Hf r1 H1)), (proj1 (Hf r2 H2)); reflexivity.
Qed.

Lemma C10_addSteps_one_timestamp_witness :
  let d := db (addSteps 7 (fun i => if Nat.eqb i 0 then "u0" else "u1") "w"
                 [("a", "1"); ("b", "2")] true init_state) in
  getSteps_result d "w" [mkWorkflowStep "u0" "w" "a" "1" 7; mkWorkflowStep "u1" "w" "b" "2" 7] /\
  getSteps_result d "w" [mkWorkflowStep "u1" "w" "b" "2" 7; mkWorkflowStep "u0" "w" "a" "1" 7].
Proof.
  intros d.
  assert (Hv : getSteps_result d "w"
                 [mkWorkflowStep "u0" "w" "a" "1" 7; mkWorkflowStep "u1" "w" "b" "2" 7]).
  { split; [vm_compute; reflexivity | simpl; repeat constructor; lia]. }
  split; [exact Hv|].
  destruct (C10_addSteps_one_timestamp 7 (fun i => if Nat.eqb i 0 then "u0" else "u1") "w"
              [("a", "1"); ("b", "2")] true init_state) as [_ H].
  apply (H [] [] [] (mkWorkflowStep "u0" "w" "a" "1" 7) (mkWorkflowStep "u1" "w" "b" "2" 7)).
  - simpl; left; reflexivity.
  - simpl; right; left; reflexivity.
  - exact Hv.
Defined.

(* ------------------------------------------------------------------ *)
(** * Claim on getWorkflows *)

(** C3: whatever the store, if the count query or the page query throws
    (whatever the cause, an orderBy the store rejects included),
    getWorkflows does not throw: wrap returns the fallback page
    {workflows: [], total: 0, page: 1, pageSize: 10, totalPages: 0}. *)
Theorem C3_getWorkflows_error_fallback
    (count_query : option status -> option Identifier -> result (option Z))
    (data_query : option status -> option Identifier -> string -> string -> Z -> Z ->
                  result (list Workflow))
    (o : GetWorkflowsOptions) :
  (count_query (opt_status o) (opt_identifier o) = Error \/
   data_query (opt_status o) (opt_identifier o)
              (default "started_at" (opt_orderBy o)) (default "desc" (opt_order o))
              (default 10 (opt_pageSize o))
              ((default 1 (opt_page o) - 1) * default 10 (opt_pageSize o)) = Error) ->
  getWorkflows count_query data_query o = mkPage [] 0 1 10 (Some 0).
Proof.
  intros [Hc|Hd]; unfold getWorkflows, getWorkflows_body, wrap, bind.
  - rewrite Hc; reflexivity.
  - destruct (count_query (opt_status o) (opt_identifier o)); [|reflexivity].
    rewrite Hd; reflexivity.
Qed.

(** A store that rejects an orderBy outside started_at / ended_at. *)
Lemma C3_getWorkflows_error_fallback_witness :
  getWorkflows (fun _ _ => Ok (Some 4))
    (fun _ _ ob _ _ _ => if String.eqb ob "started_at" || String.eqb ob "ended_at"
                         then Ok [] else Error)
    (mkOptions None None None (Some "bogus") None None)
  = mkPage [] 0 1 10 (Some 0).
Proof.
  apply C3_getWorkflows_error_fallback.
  right; reflexivity.
Defined.

(* ------------------------------------------------------------------ *)
(** * Lemmas and claims on getWorkflowStats *)



Lemma keys_bump k acc :
  map fst (bump k acc) =
  if existsb (String.eqb k) (map fst acc) then map fst acc else map fst acc ++ [k].
Proof.
  induction acc as [|[k' n] acc IH]; simpl; [reflexivity|].
  rewrite (String.eqb_sym k k').
  destruct (String.eqb k' k); simpl; [reflexivity|].
  rewrite IH; destruct existsb; reflexivity.
Qed.

Lemma keys_fold l acc :
  map fst (fold_left (fun acc r => bump (workflow_id r) acc) l acc) =
  fold_left (fun acc r => if existsb (String.eqb (workflow_id r)) acc then acc
                          else acc ++ [workflow_id r]) l (map fst acc).
Proof.
  revert acc; induction l as [|r l IH]; intros acc; simpl; [reflexivity|].
  rewrite IH, keys_bump; reflexivity.
Qed.



Lemma count_status_split ws :
  Z.of_nat (List.length ws) =
  count_status Completed ws + count_status Pending ws + count_status Failed ws.
Proof.
  unfold count_status; induction ws as [|w ws IH]; [reflexivity|].
  cbn [List.length filter].
  destruct (wf_status w); cbn [status_eqb List.length]; rewrite ?Nat2Z.inj_succ; lia.
Qed.


(* ------------------------------------------------------------------ *)
(** * Lemmas and claims on attachIdentifier *)

Lemma has_identifier_app k v ids ids' :
  has_identifier k v (ids ++ ids') = has_identifier k v ids || has_identifier k v ids'.
Proof. unfold has_identifier; apply existsb_app. Qed.

Lemma has_identifier_last k v ids : has_identifier k v (ids ++ [mkIdentifier k v]) = true.
Proof.
  rewrite has_identifier_app; unfold has_identifier at 2; simpl.
  rewrite !String.eqb_refl, orb_true_r; reflexivity.
Qed.

Lemma workflow_update_identifiers i ids d :
  workflow (update_identifiers i ids d) = map (set_identifiers i ids) (workflow d).
Proof. reflexivity. Qed.

Lemma set_identifiers_same i ids w :
  String.eqb (id w) i = true ->
  set_identifiers i ids w = mkWorkflow (id w) (name w) ids (wf_status w) (started_at w) (ended_at w).
Proof. unfold set_identifiers; intros ->; reflexivity. Qed.

Lemma set_identifiers_other i ids w :
  String.eqb (id w) i = false -> set_identifiers i ids w = w.
Proof. unfold set_identifiers; intros ->; reflexivity. Qed.

Lemma in_update_identifiers i ids w' l :
  In w' (map (set_identifiers i ids) l) -> exists x, In x l /\ w' = set_identifiers i ids x.
Proof. intros H; apply in_map_iff in H as (x & <- & Hx); exists x; split; [exact Hx | reflexivity]. Qed.

Lemma truthy_nonempty k : k <> "" -> truthy (Some k) = true.
Proof.
  intros Hk; unfold truthy; destruct (String.eqb_spec k "") as [E|_]; [contradiction | reflexivity].
Qed.

(** After the update, the found workflow's new row carries [ids']. *)
Lemma updated_row_in i ids' w l :
  In w l -> id w = i ->
  In (mkWorkflow (id w) (name w) ids' (wf_status w) (started_at w) (ended_at w))
     (map (set_identifiers i ids') l).
Proof.
  intros Hw Hi; rewrite <- (set_identifiers_same i ids' w); [apply in_map, Hw|].
  rewrite Hi; apply String.eqb_refl.
Qed.

(** C7 (counterexample): w1 and w2 both carry {a, b}.  attachIdentifier
    a/b -> {k, v} may find w1 and return true; a second attach of the
    same pair through a/b may then find w2, which lacks {k, v}, and
    return true again, attaching the pair to w2 as well, since .first()
    with no ORDER BY may return any row carrying {a, b}. *)
Lemma C7_second_attach_true :
  let d := mkDB [mkWorkflow "w1" "job" [mkIdentifier "a" "b"] Pending 1 None;
                 mkWorkflow "w2" "job" [mkIdentifier "a" "b"] Pending 2 None] [] in
  let d1 := update_identifiers "w1" [mkIdentifier "a" "b"; mkIdentifier "k" "v"] d in
  let d2 := update_identifiers "w2" [mkIdentifier "a" "b"; mkIdentifier "k" "v"] d1 in
  attachIdentifier "a" "b" (JsObject (Some "k") (Some "v")) true d (true, d1) /\
  attachIdentifier "a" "b" (JsObject (Some "k") (Some "v")) true d1 (true, d2).
Proof.
  intros d d1 d2; split.
  - exists (Some (mkWorkflow "w1" "job" [mkIdentifier "a" "b"] Pending 1 None)).
    split; [split; [left; reflexivity | reflexivity] | reflexivity].
  - exists (Some (mkWorkflow "w2" "job" [mkIdentifier "a" "b"] Pending 2 None)).
    split; [split; [right; left; reflexivity | reflexivity] | reflexivity].
Qed.

(** C7 (amended): attachIdentifier returns false and writes nothing when
    no workflow carries the existing pair, when newIdentifier is not an
    object with non-empty key and value, or when the workflow its lookup
    returns already carries the new pair.  Otherwise, when the update
    succeeds, it returns true and appends the pair to that workflow's
    identifiers; a lookup by the new pair then always finds a workflow,
    and always that workflow when no other workflow carried the new pair;
    a second attach of the same pair returns false when no other workflow
    carries the existing pair. *)
Theorem C7_attachIdentifier (ek ev : string) (ni : JsIdentifier) (ok : bool) (d : DB) :
  (getWorkflowByIdentifier_result ek ev d None ->
   forall res, attachIdentifier ek ev ni ok d res -> res = (false, d)) /\
  (~ (exists k v, ni = JsObject (Some k) (Some v) /\ k <> "" /\ v <> "") ->
   forall res, attachIdentifier ek ev ni ok d res -> res = (false, d)) /\
  (forall w k v, getWorkflowByIdentifier_result ek ev d (Some w) ->
   has_identifier k v (identifiers w) = true ->
   attach_found (Some w) (JsObject (Some k) (Some v)) ok d = (false, d)) /\
  (forall w k v ok2, getWorkflowByIdentifier_result ek ev d (Some w) ->
   k <> "" -> v <> "" -> has_identifier k v (identifiers w) = false ->
   let d' := update_identifiers (id w) (identifiers w ++ [mkIdentifier k v]) d in
   attach_found (Some w) (JsObject (Some k) (Some v)) true d = (true, d') /\
   (forall o, getWorkflowByIdentifier_result k v d' o -> exists w', o = Some w') /\
   ((forall x, In x (workflow d) -> id x <> id w -> has_identifier k v (identifiers x) = false) ->
    forall o, getWorkflowByIdentifier_result k v d' o -> exists w', o = Some w' /\ id w' = id w) /\
   ((forall x, In x (workflow d) -> id x <> id w -> has_identifier ek ev (identifiers x) = false) ->
    forall res, attachIdentifier ek ev (JsObject (Some k) (Some v)) ok2 d' res -> fst res = false)).
Proof.
  split; [|split; [|split]].
  - intros Hnone res (found & Hf & ->).
    destruct found as [w|]; [|reflexivity].
    destruct Hf as [Hin Hhas]; rewrite (Hnone w Hin) in Hhas; discriminate.
  - intros Hmal res (found & _ & ->); unfold attach_found.
    destruct found; [|reflexivity].
    destruct ni as [| |[k|] [v|]]; try reflexivity.
    unfold truthy.
    destruct (String.eqb k "") eqn:Ek; [reflexivity|].
    destruct (String.eqb v "") eqn:Ev; [reflexivity|].
    exfalso; apply Hmal; exists k, v; split; [reflexivity|].
    split; intros E; [rewrite E in Ek | rewrite E in Ev]; discriminate.
  - intros w k v _ Hhas; unfold attach_found; rewrite Hhas.
    destruct (negb (truthy (Some k)) || negb (truthy (Some v))); reflexivity.
  - intros w k v ok2 [Hw Hwek] Hk Hv Hfresh d'.
    pose proof (truthy_nonempty k Hk) as Htk; pose proof (truthy_nonempty v Hv) as Htv.
    set (ids' := identifiers w ++ [mkIdentifier k v]).
    assert (Hnew : In (mkWorkflow (id w) (name w) ids' (wf_status w) (started_at w) (ended_at w))
                      (workflow d'))
      by (unfold d'; rewrite workflow_update_identifiers; apply updated_row_in; auto).
    assert (Hkv : has_identifier k v ids' = true) by apply has_identifier_last.
    assert (Hek : has_identifier ek ev ids' = true)
      by (unfold ids'; rewrite has_identifier_app, Hwek; reflexivity).
    split; [|split; [|split]].
    + unfold attach_found; rewrite Htk, Htv, Hfresh; reflexivity.
    + intros [w'|] Ho; [exists w'; reflexivity|].
      specialize (Ho _ Hnew); simpl in Ho; congruence.
    + intros Hoth [w'|] Ho.
      * destruct Ho as [Hin Hh].
        unfold d' in Hin; rewrite workflow_update_identifiers in Hin.
        apply in_update_identifiers in Hin as (x & Hx & ->).
        exists (set_identifiers (id w) ids' x); split; [reflexivity|].
        unfold set_identifiers in *; destruct (String.eqb_spec (id x) (id w)) as [E|E];
          [exact E|].
        rewrite (Hoth x Hx E) in Hh; discriminate.
      * specialize (Ho _ Hnew); simpl in Ho; congruence.
    + intros Hoth res (found & Hf & ->).
      destruct found as [w'|].
      * destruct Hf as [Hin Hh].
        unfold d' in Hin; rewrite workflow_update_identifiers in Hin.
        apply in_update_identifiers in Hin as (x & Hx & ->).
        unfold set_identifiers in *; destruct (String.eqb_spec (id x) (id w)) as [E|E].
        -- simpl; fold ids'; rewrite Hkv.
           destruct (_ || _); reflexivity.
        -- rewrite (Hoth x Hx E) in Hh; discriminate.
      * specialize (Hf _ Hnew); simpl in Hf; congruence.
Qed.

Lemma C7_attachIdentifier_witness :
  let w := mkWorkflow "w1" "job" [mkIdentifier "test1" "123"] Pending 1 None in
  let d := mkDB [w] [] in
  let d' := update_identifiers "w1" [mkIdentifier "test1" "123"; mkIdentifier "test2" "456"] d in
  attach_found (Some w) (JsObject (Some "test2") (Some "456")) true d = (true, d') /\
  (forall res, attachIdentifier "test1" "123" (JsObject (Some "test2") (Some "456")) true d' res ->
     fst res = false) /\
  (forall o, getWorkflowByIdentifier_result "test2" "456" d' o -> exists w', o = Some w' /\ id w' = "w1").
Proof.
  intros w d d'.
  destruct (C7_attachIdentifier "test1" "123" (JsObject (Some "test2") (Some "456")) true d)
    as (_ & _ & _ & H).
  destruct (H w "test2" "456" true) as (H1 & _ & H3 & H4).
  - split; [left; reflexivity | reflexivity].
  - discriminate.
  - discriminate.
  - reflexivity.
  - split; [exact H1|]; split.
    + apply H4; intros x [<-|[]] Hx; contradiction Hx; reflexivity.
    + apply H3; intros x [<-|[]] Hx; contradiction Hx; reflexivity.
Defined.

(* ------------------------------------------------------------------ *)
(** * Lemmas on deletion and lookup *)

Lemma find_none_filter {A} (f : A -> bool) l : find f l = None <-> filter f l = [].
Proof.
  induction l as [|x l IH]; simpl; [split; reflexivity|].
  destruct (f x); [split; discriminate | exact IH].
Qed.

Lemma filter_nil_existsb {A} (f : A -> bool) l : filter f l = [] <-> existsb f l = false.
Proof.
  induction l as [|x l IH]; simpl; [split; reflexivity|].
  destruct (f x); simpl; [split; discriminate | exact IH].
Qed.

Lemma find_app {A} (f : A -> bool) l1 l2 :
  find f (l1 ++ l2) = match find f l1 with Some x => Some x | None => find f l2 end.
Proof.
  induction l1 as [|x l1 IH]; simpl; [reflexivity|].
  destruct (f x); [reflexivity | exact IH].
Qed.

Lemma filter_after_delete {A} (f : A -> string) (wid i : string) l :
  filter (fun x => String.eqb (f x) i) (filter (fun x => negb (String.eqb (f x) wid)) l) =
  if String.eqb i wid then [] else filter (fun x => String.eqb (f x) i) l.
Proof.
  destruct (String.eqb_spec i wid) as [->|Hne].
  - induction l as [|x l IH]; simpl; [reflexivity|].
    destruct (String.eqb (f x) wid) eqn:E; simpl; [exact IH | rewrite E; exact IH].
  - induction l as [|x l IH]; simpl; [reflexivity|].
    destruct (String.eqb_spec (f x) wid) as [E|E]; simpl.
    + destruct (String.eqb_spec (f x) i) as [E'|E']; [congruence | exact IH].
    + destruct (String.eqb (f x) i); [f_equal|]; exact IH.
Qed.

(** With unique workflow ids, each step meets at most one workflow row in
    the join. *)
Lemma join_one_row k v r l :
  NoDup (map id l) ->
  map (fun _ : Workflow => r)
      (filter (fun w => String.eqb (id w) (workflow_id r) && has_identifier k v (identifiers w)) l) =
  if existsb (fun w => String.eqb (id w) (workflow_id r) && has_identifier k v (identifiers w)) l
  then [r] else [].
Proof.
  induction l as [|w l IH]; simpl; intros Hnd; [reflexivity|].
  inversion Hnd as [|? ? Hnin Hnd']; subst.
  destruct (String.eqb (id w) (workflow_id r) && has_identifier k v (identifiers w)) eqn:E; simpl.
  - apply andb_true_iff in E as [E _]; apply String.eqb_eq in E.
    assert (Hnil : filter (fun w0 => String.eqb (id w0) (workflow_id r)
                                      && has_identifier k v (identifiers w0)) l = []).
    { apply filter_nil_existsb.
      destruct existsb eqn:Ex; [|reflexivity].
      apply existsb_exists in Ex as (w' & Hin & Hw').
      apply andb_true_iff in Hw' as [Hw' _]; apply String.eqb_eq in Hw'.
      exfalso; apply Hnin; rewrite E, <- Hw'; apply in_map, Hin. }
    rewrite Hnil; reflexivity.
  - exact (IH Hnd').
Qed.

Lemma flat_map_singleton_filter {A} (f : A -> bool) l :
  flat_map (fun x => if f x then [x] else []) l = filter f l.
Proof.
  induction l as [|x l IH]; simpl; [reflexivity|].
  destruct (f x); simpl; rewrite IH; reflexivity.
Qed.

(* ------------------------------------------------------------------ *)
(** * Lemmas on the GROUP BY counts *)

Lemma sum_counts_cons k n g : sum_counts ((k, n) :: g) = (n + sum_counts g)%nat.
Proof. reflexivity. Qed.

Lemma key_count_bump k x acc :
  sum_counts (filter (fun p => String.eqb (fst p) k) (bump x acc)) =
  (sum_counts (filter (fun p => String.eqb (fst p) k) acc)
   + if String.eqb x k then 1 else 0)%nat.
Proof.
  induction acc as [|[k' n] acc IH]; cbn [bump].
  - simpl; destruct (String.eqb x k); reflexivity.
  - destruct (String.eqb_spec k' x) as [->|Hne]; cbn [filter fst].
    + destruct (String.eqb x k); rewrite ?sum_counts_cons; lia.
    + destruct (String.eqb k' k); rewrite ?sum_counts_cons, IH; lia.
Qed.

Lemma key_count_fold k l acc :
  sum_counts (filter (fun p => String.eqb (fst p) k)
                     (fold_left (fun acc r => bump (workflow_id r) acc) l acc)) =
  (sum_counts (filter (fun p => String.eqb (fst p) k) acc)
   + List.length (filter (fun r => String.eqb (workflow_id r) k) l))%nat.
Proof.
  revert acc; induction l as [|r l IH]; intros acc; cbn [fold_left]; [simpl; lia|].
  rewrite IH, key_count_bump; cbn [filter].
  destruct (String.eqb (workflow_id r) k); cbn [List.length]; lia.
Qed.

Lemma key_count_entry k n g :
  NoDup (map fst g) -> In (k, n) g ->
  sum_counts (filter (fun p => String.eqb (fst p) k) g) = n.
Proof.
  induction g as [|[k0 n0] g IH]; simpl; intros Hnd Hin; [contradiction|].
  inversion Hnd as [|? ? Hnin Hnd']; subst.
  destruct Hin as [E|Hin].
  - injection E as -> ->; rewrite String.eqb_refl; simpl.
    assert (Hnil : filter (fun p => String.eqb (fst p) k) g = []).
    { apply filter_nil_existsb.
      destruct existsb eqn:Ex; [|reflexivity].
      apply existsb_exists in Ex as ([k' n'] & Hin' & Hk).
      apply String.eqb_eq in Hk; simpl in Hk; subst k'.
      exfalso; apply Hnin; apply (in_map fst _ _ Hin'). }
    rewrite Hnil; simpl; lia.
  - destruct (String.eqb_spec k0 k) as [->|Hne].
    + exfalso; apply Hnin; apply (in_map fst _ _ Hin).
    + exact (IH Hnd' Hin).
Qed.

Lemma distinct_fold_nodup l acc :
  NoDup acc ->
  NoDup (fold_left (fun acc r => if existsb (String.eqb (workflow_id r)) acc then acc
                                 else acc ++ [workflow_id r]) l acc).
Proof.
  revert acc; induction l as [|r l IH]; intros acc Hnd; simpl; [exact Hnd|].
  apply IH.
  destruct existsb eqn:Ex; [exact Hnd|].
  apply (Permutation_NoDup (Permutation_cons_append acc (workflow_id r))).
  constructor; [|exact Hnd].
  intros Hin.
  assert (Ht : existsb (String.eqb (workflow_id r)) acc = true).
  { apply existsb_exists; exists (workflow_id r); split; [exact Hin | apply String.eqb_refl]. }
  congruence.
Qed.

Lemma group_keys_nodup steps : NoDup (map fst (group_counts steps)).
Proof.
  unfold group_counts; rewrite keys_fold; apply distinct_fold_nodup; constructor.
Qed.

Lemma bump_positive k acc :
  Forall (fun p => (1 <= snd p)%nat) acc -> Forall (fun p => (1 <= snd p)%nat) (bump k acc).
Proof.
  induction acc as [|[k' n] acc IH]; simpl; intros H.
  - constructor; [simpl; lia | constructor].
  - inversion H as [|? ? Hn Hacc]; subst.
    destruct (String.eqb k' k); constructor; simpl in *; auto; lia.
Qed.

Lemma group_positive steps : Forall (fun p => (1 <= snd p)%nat) (group_counts steps).
Proof.
  unfold group_counts.
  assert (H : forall l acc, Forall (fun p => (1 <= snd p)%nat) acc ->
            Forall (fun p => (1 <= snd p)%nat)
                   (fold_left (fun acc r => bump (workflow_id r) acc) l acc)).
  { induction l as [|r l IH]; intros acc Hacc; simpl; [exact Hacc|].
    apply IH, bump_positive, Hacc. }
  apply H; constructor.
Qed.

Lemma keys_bump_in y k acc :
  y = k \/ In y (map fst acc) -> In y (map fst (bump k acc)).
Proof.
  rewrite keys_bump; destruct existsb eqn:Ex; intros [->|Hin].
  - apply existsb_exists in Ex as (k' & Hin & Hk); apply String.eqb_eq in Hk; subst k'; exact Hin.
  - exact Hin.
  - apply in_or_app; right; left; reflexivity.
  - apply in_or_app; left; exact Hin.
Qed.

Lemma group_keys_cover y l acc :
  In y (map fst acc) \/ (exists r, In r l /\ workflow_id r = y) ->
  In y (map fst (fold_left (fun acc r => bump (workflow_id r) acc) l acc)).
Proof.
  revert acc; induction l as [|r l IH]; intros acc H; simpl.
  - destruct H as [H|(r & [] & _)]; exact H.
  - apply IH.
    destruct H as [H|(r' & [<-|Hin] & Hr')].
    + left; apply keys_bump_in; right; exact H.
    + left; apply keys_bump_in; left; symmetry; exact Hr'.
    + right; exists r'; split; assumption.
Qed.

Lemma average_ids g :
  map sd_workflow_id (map (fun '(wid, n) => mkStepDuration wid 0 (Z.of_nat n)) g) = map fst g.
Proof. induction g as [|[k n] g IH]; simpl; [reflexivity | rewrite IH; reflexivity]. Qed.

Lemma average_entry e g :
  In e (map (fun '(wid, n) => mkStepDuration wid 0 (Z.of_nat n)) g) ->
  exists n, In (sd_workflow_id e, n) g /\ total_duration e = 0 /\ step_count e = Z.of_nat n.
Proof.
  intros Hin; apply in_map_iff in Hin as ([k n] & <- & Hin).
  exists n; simpl; split; [exact Hin | split; reflexivity].
Qed.

(* ------------------------------------------------------------------ *)
(** * Lemmas on the buffer path *)

Lemma subseq_refl {A} (l : list A) : subseq l l.
Proof. induction l; constructor; assumption. Qed.

Lemma subseq_app {A} (l1 l1' l2 l2' : list A) :
  subseq l1 l1' -> subseq l2 l2' -> subseq (l1 ++ l2) (l1' ++ l2').
Proof.
  intros H1 H2; induction H1; simpl; [exact H2 | constructor; assumption | constructor; assumption].
Qed.

Lemma subseq_nil_l {A} (l : list A) : subseq [] l.
Proof. induction l; constructor; assumption. Qed.

Lemma subseq_trans {A} (l1 l2 l3 : list A) : subseq l1 l2 -> subseq l2 l3 -> subseq l1 l3.
Proof.
  intros H12 H23; revert l1 H12; induction H23; intros l1 H12.
  - exact H12.
  - inversion H12; subst; constructor; auto.
  - constructor; auto.
Qed.

Lemma flush_frame ok s :
  workflow (db (fst (flushBatchInserts ok s))) = workflow (db s) /\
  workflow_step (db (fst (flushBatchInserts ok s))) =
    workflow_step (db s) ++ (if ok then pendingSteps s else []).
Proof.
  unfold flushBatchInserts.
  destruct (batchInsertTimer s); simpl; destruct (pendingSteps s) eqn:E; simpl;
    try rewrite E; destruct ok; simpl; rewrite ?app_nil_r; split; reflexivity.
Qed.

Lemma flush_subseq ok s :
  subseq (stored_and_pending (fst (flushBatchInserts ok s))) (stored_and_pending s).
Proof.
  unfold stored_and_pending; rewrite flush_empties, (proj2 (flush_frame ok s)), app_nil_r.
  apply subseq_app; [apply subseq_refl|].
  destruct ok; [apply subseq_refl | apply subseq_nil_l].
Qed.

Lemma step_event_frame e s :
  workflow (db (step_event e s)) = workflow (db s) /\
  exists ext, workflow_step (db (step_event e s)) = workflow_step (db s) ++ ext.
Proof.
  destruct e as [now sid wid stp dat|t ok|ok]; simpl.
  - unfold addStep; rewrite (proj1 (schedule_same_data _)); simpl.
    split; [reflexivity | exists []; rewrite app_nil_r; reflexivity].
  - unfold onTimer; destruct (in_dec Nat.eq_dec t (armed s)).
    + destruct (flush_frame ok (mkState (db s) (pendingSteps s) None (clearTimeout t (armed s)) (next_timer s)))
        as [E1 E2]; simpl in E1, E2.
      split; [exact E1 | eexists; exact E2].
    + split; [reflexivity | exists []; rewrite app_nil_r; reflexivity].
  - destruct (flush_frame ok s) as [E1 E2]; split; [exact E1 | eexists; exact E2].
Qed.

Lemma step_event_subseq e s :
  subseq (stored_and_pending (step_event e s))
         (stored_and_pending s ++ added [e]).
Proof.
  destruct e as [now sid wid stp dat|t ok|ok]; simpl.
  - unfold stored_and_pending, addStep, scheduleBatchInsert.
    destruct (batchInsertTimer s); cbn; rewrite <- app_assoc; apply subseq_refl.
  - rewrite app_nil_r; unfold onTimer; destruct (in_dec Nat.eq_dec t (armed s)); [|apply subseq_refl].
    apply (flush_subseq ok (mkState (db s) (pendingSteps s) None (clearTimeout t (armed s)) (next_timer s))).
  - rewrite app_nil_r; apply flush_subseq.
Qed.

(* ------------------------------------------------------------------ *)
(** * Properties of deletion *)

(** deleteWorkflow returns false only when no row has the id or its
    transaction fails, and then the store is left as it was. *)
Theorem deleteWorkflow_false_unchanged (wid : string) (ok : bool) (d : DB) :
  fst (deleteWorkflow wid ok d) = false ->
  snd (deleteWorkflow wid ok d) = d /\ (rows_with_id wid d = [] \/ ok = false).
Proof.
  unfold deleteWorkflow, rows_with_id.
  destruct (find (fun w => String.eqb (id w) wid) (workflow d)) eqn:Ef; simpl.
  - destruct ok; simpl; intros H; [discriminate | split; [reflexivity | right; reflexivity]].
  - intros _; split; [reflexivity | left; apply find_none_filter, Ef].
Qed.

Lemma deleteWorkflow_false_unchanged_witness :
  snd (deleteWorkflow "w9" true stats_example) = stats_example /\
  (rows_with_id "w9" stats_example = [] \/ true = false).
Proof. apply (deleteWorkflow_false_unchanged "w9" true stats_example); reflexivity. Defined.

(** When a row has the id and the transaction commits, deleteWorkflow
    returns true; afterwards no row and no step of that workflow is left
    (getSteps can only return []), and the rows and steps of every other
    workflow id are exactly as before. *)
Theorem deleteWorkflow_removes_only_target (wid : string) (d : DB) :
  rows_with_id wid d <> [] ->
  let d' := snd (deleteWorkflow wid true d) in
  fst (deleteWorkflow wid true d) = true /\
  rows_with_id wid d' = [] /\
  (forall res, getSteps_result d' wid res -> res = []) /\
  (forall i, i <> wid -> rows_with_id i d' = rows_with_id i d /\ steps_of i d' = steps_of i d).
Proof.
  intros Hne d'.
  assert (Ed : deleteWorkflow wid true d = (true, delete_workflow wid d)).
  { unfold deleteWorkflow.
    destruct (find (fun w => String.eqb (id w) wid) (workflow d)) eqn:Ef; [reflexivity|].
    exfalso; apply Hne; apply find_none_filter, Ef. }
  unfold d'; rewrite Ed; simpl.
  unfold getSteps_result, rows_with_id, steps_of, delete_workflow; simpl.
  rewrite !(filter_after_delete id wid wid), !(filter_after_delete workflow_id wid wid),
    String.eqb_refl.
  split; [reflexivity|]; split; [reflexivity|]; split.
  - intros res [Hp _]; apply Permutation_nil; symmetry; exact Hp.
  - intros i Hi.
    rewrite (filter_after_delete id wid i), (filter_after_delete workflow_id wid i).
    destruct (String.eqb_spec i wid) as [E|_]; [contradiction | split; reflexivity].
Qed.

Lemma deleteWorkflow_removes_only_target_witness :
  fst (deleteWorkflow "w1" true stats_example) = true /\
  steps_of "w2" (snd (deleteWorkflow "w1" true stats_example)) = steps_of "w2" stats_example.
Proof.
  destruct (deleteWorkflow_removes_only_target "w1" stats_example) as (H1 & _ & _ & H4).
  - simpl; discriminate.
  - split; [exact H1 | apply (H4 "w2"); discriminate].
Defined.

(** deleteAllWorkflows, once committed, returns true and leaves a store in
    which getWorkflowStats counts nothing, no identifier finds a workflow
    and getSteps returns [] for every id. *)
Theorem deleteAllWorkflows_empties (d : DB) (k v wid : string) :
  let d' := snd (deleteAllWorkflows true d) in
  fst (deleteAllWorkflows true d) = true /\
  st_total (getWorkflowStats d') = 0 /\ st_completed (getWorkflowStats d') = 0 /\
  st_pending (getWorkflowStats d') = 0 /\ avgSteps (getWorkflowStats d') = float_of_Z 0 /\
  (forall o, getWorkflowByIdentifier_result k v d' o -> o = None) /\
  (forall res, getSteps_result d' wid res -> res = []).
Proof.
  intros d'; unfold d', deleteAllWorkflows; simpl.
  do 4 (split; [reflexivity|]); split; [vm_compute; reflexivity|]; split.
  - intros [w|] Ho; [destruct Ho as [[] _] | reflexivity].
  - intros res [Hp _]; apply Permutation_nil; symmetry; exact Hp.
Qed.

(** The DELETE /workflows/:id route tests the un-awaited Promise returned
    by deleteWorkflow, which is always truthy: it answers 200 for every
    id, and for an id no row has it answers 200 with the store unchanged,
    never 404. *)
Theorem delete_route_never_404 (wid : string) (ok : bool) (d : DB) :
  rows_with_id wid d = [] ->
  delete_route wid ok d = (200, d) /\ (forall ok' d', fst (delete_route wid ok' d') = 200).
Proof.
  intros Hnil; split.
  - unfold delete_route, deleteWorkflow; simpl.
    apply find_none_filter in Hnil; unfold rows_with_id in Hnil; rewrite Hnil; reflexivity.
  - intros ok' d'; reflexivity.
Qed.

Lemma delete_route_never_404_witness :
  delete_route "w9" true stats_example = (200, stats_example).
Proof. apply (delete_route_never_404 "w9" true stats_example); reflexivity. Defined.

(* ------------------------------------------------------------------ *)
(** * Properties of the identifier-restricted and grouped step queries *)

(** With workflow ids unique (the primary key), a result of
    getStepsByIdentifier(key, value) is, up to the order of equal
    created_at values, the stored steps whose workflow row carries the
    pair, each once and sorted by created_at; a step whose workflow_id has
    no workflow row is never returned. *)
Theorem getStepsByIdentifier_steps (k v : string) (d : DB) (res : list WorkflowStep) :
  NoDup (map id (workflow d)) ->
  getStepsByIdentifier_result k v d res ->
  Permutation res
    (filter (fun r => existsb (fun w => String.eqb (id w) (workflow_id r)
                                        && has_identifier k v (identifiers w)) (workflow d))
            (workflow_step d)) /\
  Sorted Z.le (map created_at res) /\
  (forall r, In r res <->
     In r (workflow_step d) /\
     exists w, In w (workflow d) /\ id w = workflow_id r /\ has_identifier k v (identifiers w) = true).
Proof.
  intros Hnd [Hp Hs].
  assert (Hj : join_steps k v d =
    filter (fun r => existsb (fun w => String.eqb (id w) (workflow_id r)
                                       && has_identifier k v (identifiers w)) (workflow d))
           (workflow_step d)).
  { unfold join_steps; rewrite <- flat_map_singleton_filter.
    apply flat_map_ext; intros r; apply join_one_row, Hnd. }
  rewrite Hj in Hp.
  split; [exact Hp|]; split; [exact Hs|].
  intros r; split.
  - intros Hin; apply (Permutation_in _ Hp), filter_In in Hin as [Hin Hex].
    apply existsb_exists in Hex as (w & Hw & E); apply andb_true_iff in E as [E1 E2].
    split; [exact Hin | exists w; split; [exact Hw | split; [apply String.eqb_eq, E1 | exact E2]]].
  - intros [Hin (w & Hw & E1 & E2)].
    apply (Permutation_in _ (Permutation_sym Hp)), filter_In; split; [exact Hin|].
    apply existsb_exists; exists w; split; [exact Hw|].
    rewrite E1, String.eqb_refl, E2; reflexivity.
Qed.

Lemma getStepsByIdentifier_steps_witness :
  let d := mkDB [mkWorkflow "w1" "job" [mkIdentifier "k" "v"] Pending 1 None;
                 mkWorkflow "w2" "job" [] Pending 1 None]
                [mkWorkflowStep "s1" "w1" "a" "null" 1; mkWorkflowStep "s2" "w2" "b" "null" 2;
                 mkWorkflowStep "s3" "w1" "c" "null" 3; mkWorkflowStep "s4" "w3" "d" "null" 4] in
  let res := [mkWorkflowStep "s1" "w1" "a" "null" 1; mkWorkflowStep "s3" "w1" "c" "null" 3] in
  NoDup (map id (workflow d)) /\ getStepsByIdentifier_result "k" "v" d res /\
  Sorted Z.le (map created_at res).
Proof.
  intros d res.
  assert (Hnd : NoDup (map id (workflow d))).
  { simpl; constructor; [simpl; intros [H|[]]; discriminate | constructor; [intros [] | constructor]]. }
  assert (Hr : getStepsByIdentifier_result "k" "v" d res).
  { split; [vm_compute; apply Permutation_refl | simpl; repeat constructor; lia]. }
  split; [exact Hnd|]; split; [exact Hr|].
  exact (proj1 (proj2 (getStepsByIdentifier_steps "k" "v" d res Hnd Hr))).
Defined.

(** getAverageStepDuration returns one entry per workflow id that has
    steps, no id twice; every entry has total_duration 0 and a step_count
    of at least 1 equal to the number of stored steps of that workflow;
    and every stored step's workflow id has an entry. *)
Theorem getAverageStepDuration_counts (d : DB) :
  NoDup (map sd_workflow_id (getAverageStepDuration d)) /\
  (forall e, In e (getAverageStepDuration d) ->
     total_duration e = 0 /\
     step_count e = Z.of_nat (List.length (steps_of (sd_workflow_id e) d)) /\
     1 <= step_count e) /\
  (forall r, In r (workflow_step d) ->
     exists e, In e (getAverageStepDuration d) /\ sd_workflow_id e = workflow_id r).
Proof.
  unfold getAverageStepDuration; split; [|split].
  - rewrite average_ids; apply group_keys_nodup.
  - intros e Hin; apply average_entry in Hin as (n & Hin & Ht & Hc).
    split; [exact Ht|].
    pose proof (key_count_entry _ _ _ (group_keys_nodup (workflow_step d)) Hin) as Hn.
    unfold group_counts in Hn; rewrite key_count_fold in Hn; simpl in Hn.
    pose proof (proj1 (Forall_forall _ _) (group_positive (workflow_step d)) _ Hin) as Hpos.
    simpl in Hpos; unfold steps_of; rewrite Hc, <- Hn; split; [reflexivity | lia].
  - intros r Hin.
    assert (Hk : In (workflow_id r) (map sd_workflow_id (map (fun '(wid, n) =>
                   mkStepDuration wid 0 (Z.of_nat n)) (group_counts (workflow_step d))))).
    { rewrite average_ids; apply group_keys_cover; right; exists r; split; [exact Hin | reflexivity]. }
    apply in_map_iff in Hk as (e & He & Hin'); exists e; split; assumption.
Qed.

(** The CLI's 'Failed' row, total - completed - pending of
    getWorkflowStats, is the number of failed workflows. *)
Theorem cli_failed_count (d : DB) :
  cli_failed (getWorkflowStats d) = count_status Failed (workflow d).
Proof.
  unfold cli_failed, getWorkflowStats; cbn [st_total st_completed st_pending].
  rewrite count_status_split; lia.
Qed.

(* ------------------------------------------------------------------ *)
(** * Properties of startWorkflow, addSteps and the buffer path *)

(** After startWorkflow's insert with a fresh id, looking up any pair of
    its identifiers that no earlier workflow carries returns the new row,
    pending, started at the clock reading and not ended. *)
Theorem startWorkflow_then_lookup (now : Z) (uuid nm : string) (ids : list Identifier)
        (k v : string) (d : DB) :
  rows_with_id uuid d = [] ->
  getWorkflowByIdentifier_result k v d None ->
  has_identifier k v ids = true ->
  forall o, getWorkflowByIdentifier_result k v (apply_write (startWorkflow now uuid nm ids) d) o ->
    o = Some (mkWorkflow uuid nm ids Pending now None).
Proof.
  intros Hfresh Hnone Hk.
  unfold apply_write, startWorkflow, insert_workflow; simpl.
  unfold rows_with_id in Hfresh; apply filter_nil_existsb in Hfresh; rewrite Hfresh.
  intros [w|] Ho; simpl in Ho.
  - destruct Ho as [Hin Hh]; apply in_app_or in Hin as [Hin|[<-|[]]].
    + rewrite (Hnone w Hin) in Hh; discriminate.
    + reflexivity.
  - specialize (Ho (mkWorkflow uuid nm ids Pending now None)); simpl in Ho.
    rewrite Ho in Hk; [discriminate | apply in_or_app; right; left; reflexivity].
Qed.

Lemma startWorkflow_then_lookup_witness :
  ~ getWorkflowByIdentifier_result "k" "v"
      (apply_write (startWorkflow 7 "w3" "job" [mkIdentifier "k" "v"]) stats_example) None.
Proof.
  intros Hnone.
  assert (H : None = Some (mkWorkflow "w3" "job" [mkIdentifier "k" "v"] Pending 7 None)).
  { apply (startWorkflow_then_lookup 7 "w3" "job" [mkIdentifier "k" "v"] "k" "v" stats_example);
      [reflexivity | | reflexivity | exact Hnone].
    intros w Hin; simpl in Hin; destruct Hin as [<-|[<-|[]]]; reflexivity. }
  discriminate H.
Defined.

Lemma filter_all_true {A} (f : A -> bool) l : Forall (fun x => f x = true) l -> filter f l = l.
Proof. induction 1 as [|x l Hx _ IH]; simpl; [reflexivity | rewrite Hx, IH; reflexivity]. Qed.

Lemma filter_all_false {A} (f : A -> bool) l : Forall (fun x => f x = false) l -> filter f l = [].
Proof. induction 1 as [|x l Hx _ IH]; simpl; [reflexivity | rewrite Hx, IH; reflexivity]. Qed.

(** A committed addSteps appends its rows, in the order of the array, to
    the steps of its workflow and leaves the steps of every other
    workflow, the workflow table and the write buffer as they were. *)
Theorem addSteps_appends (now : Z) (uuid : nat -> string) (wid : string)
        (steps : list (string * string)) (s : State) (i : string) :
  i <> wid ->
  let s' := addSteps now uuid wid steps true s in
  steps_of wid (db s') = steps_of wid (db s) ++ addSteps_rows uuid 0 wid now steps /\
  steps_of i (db s') = steps_of i (db s) /\
  workflow (db s') = workflow (db s) /\ pendingSteps s' = pendingSteps s.
Proof.
  intros Hi s'; unfold s', addSteps, steps_of; simpl.
  pose proof (addSteps_rows_fields uuid 0 wid now steps) as Hf.
  rewrite !filter_app; split; [|split; [|split; reflexivity]].
  - f_equal; apply filter_all_true.
    eapply Forall_impl; [|exact Hf]; intros r [_ ->]; apply String.eqb_refl.
  - rewrite (filter_all_false _ (addSteps_rows uuid 0 wid now steps)), app_nil_r; [reflexivity|].
    eapply Forall_impl; [|exact Hf]; intros r [_ ->].
    destruct (String.eqb_spec wid i) as [E|_]; [congruence | reflexivity].
Qed.

Lemma addSteps_appends_witness :
  steps_of "w2" (db (addSteps 9 (fun _ => "u") "w1" [("a", "null"); ("b", "null")] true
                      (mkState stats_example [] None [] 0))) =
  steps_of "w2" stats_example.
Proof.
  exact (proj1 (proj2 (addSteps_appends 9 (fun _ => "u") "w1" [("a", "null"); ("b", "null")]
                        (mkState stats_example [] None [] 0) "w2" ltac:(discriminate)))).
Defined.

(** The step-buffer path (addStep, timer callbacks, flushBatchInserts),
    whatever its inserts do, never writes the workflow table and never
    removes or rewrites a stored step: stored steps only grow at the
    end. *)
Theorem events_append_only (evs : list Event) (s : State) :
  workflow (db (run_events evs s)) = workflow (db s) /\
  exists ext, workflow_step (db (run_events evs s)) = workflow_step (db s) ++ ext.
Proof.
  revert s; induction evs as [|e evs IH]; intros s; simpl.
  - split; [reflexivity | exists []; rewrite app_nil_r; reflexivity].
  - destruct (IH (step_event e s)) as [E1 (ext & E2)].
    destruct (step_event_frame e s) as [F1 (ext' & F2)].
    split; [congruence|].
    exists (ext' ++ ext); rewrite E2, F2, app_assoc; reflexivity.
Qed.

(** Whatever the outcomes of the inserts, the stored steps followed by the
    buffer are an order-preserving sub-list of the initial ones followed
    by the records of the addStep calls: a record is stored at most once,
    never before one added earlier; a failed flush drops its records
    without retry. *)
Theorem events_at_most_once (evs : list Event) (s : State) :
  subseq (stored_and_pending (run_events evs s)) (stored_and_pending s ++ added evs).
Proof.
  revert s; induction evs as [|e evs IH]; intros s.
  - simpl; rewrite app_nil_r; apply subseq_refl.
  - cbn [run_events]; eapply subseq_trans; [apply IH|].
    change (e :: evs) with ([e] ++ evs); rewrite added_app, app_assoc.
    apply (subseq_app (stored_and_pending (step_event e s)) _ (added evs) (added evs));
      [apply step_event_subseq | apply subseq_refl].
Qed.

(** A failed flush of a non-empty buffer issues the insert of the whole
    buffer, empties the buffer and leaves the store unchanged: the records
    are lost. *)
Theorem flush_failure_drops (s : State) :
  pendingSteps s <> [] ->
  snd (flushBatchInserts false s) = Some (pendingSteps s) /\
  pendingSteps (fst (flushBatchInserts false s)) = [] /\
  db (fst (flushBatchInserts false s)) = db s.
Proof.
  intros Hne; unfold flushBatchInserts.
  destruct (batchInsertTimer s); simpl; destruct (pendingSteps s) eqn:E;
    try contradiction; simpl; rewrite ?E; repeat split.
Qed.

Lemma flush_failure_drops_witness :
  let s := addStep 5 "s1" "w1" "a" "null" init_state in
  pendingSteps (fst (flushBatchInserts false s)) = [] /\ db (fst (flushBatchInserts false s)) = db s.
Proof.
  intros s; apply (flush_failure_drops s); simpl; discriminate.
Defined.

(** destroy() flushes the buffer: afterwards no flush timer is armed or
    held and the buffer is empty; when the insert succeeds the stored
    steps are the old ones followed by the whole buffer, in order. *)
Theorem destroy_flushes (ok : bool) (s : State) :
  timer_inv s ->
  armed (destroy ok s) = [] /\ batchInsertTimer (destroy ok s) = None /\
  pendingSteps (destroy ok s) = [] /\
  workflow_step (db (destroy true s)) = workflow_step (db s) ++ pendingSteps s.
Proof.
  intros Hinv; unfold destroy.
  destruct (flush_timer ok s Hinv) as [E1 E2].
  split; [exact E2|]; split; [exact E1|]; split; [apply flush_empties|].
  exact (proj2 (flush_frame true s)).
Qed.

Lemma destroy_flushes_witness :
  let s := addStep 5 "s1" "w1" "a" "null" init_state in
  armed (destroy true s) = [] /\
  workflow_step (db (destroy true s)) = [mkWorkflowStep "s1" "w1" "a" "null" 5].
Proof.
  intros s; destruct (destroy_flushes true s) as (H1 & _ & _ & H4).
  - reflexivity.
  - split; [exact H1 | rewrite H4; reflexivity].
Defined.

(* ------------------------------------------------------------------ *)
(** * Properties of getWorkflows' page count and of the server's auth *)

(** For a positive pageSize, a page getWorkflows computes has a
    totalPages tp with (tp - 1) * pageSize < total <= tp * pageSize, the
    least number of pages holding total rows. *)
Theorem getWorkflows_totalPages
        (count_query : option status -> option Identifier -> result (option Z))
        (data_query : option status -> option Identifier -> string -> string -> Z -> Z ->
                      result (list Workflow))
        (o : GetWorkflowsOptions) (p : WorkflowsPage) :
  getWorkflows_body count_query data_query o = Ok p ->
  0 < pageSize p ->
  exists tp, totalPages p = Some tp /\ (tp - 1) * pageSize p < total p <= tp * pageSize p.
Proof.
  unfold getWorkflows_body, bind.
  destruct (count_query (opt_status o) (opt_identifier o)) as [c|]; [|discriminate].
  destruct (data_query _ _ _ _ _ _) as [wfs|]; [|discriminate].
  intros H; injection H as <-; simpl; intros Hps.
  unfold ceil_div.
  set (t := default 0 c); set (ps := default 10 (opt_pageSize o)) in *.
  destruct (Z.eqb_spec ps 0) as [E|_]; [lia|].
  exists (- ((- t) / ps)); split; [reflexivity|].
  pose proof (Z.div_mod (- t) ps ltac:(lia)) as Hd.
  pose proof (Z.mod_pos_bound (- t) ps Hps) as Hm.
  nia.
Qed.

Lemma getWorkflows_totalPages_witness :
  totalPages (getWorkflows (fun _ _ => Ok (Some 25)) (fun _ _ _ _ _ _ => Ok [])
                (mkOptions None None (Some 10) None None None)) = Some 3 /\
  exists tp, Some tp = Some 3 /\ (tp - 1) * 10 < 25 <= tp * 10.
Proof.
  split; [reflexivity|].
  destruct (getWorkflows_totalPages (fun _ _ => Ok (Some 25)) (fun _ _ _ _ _ _ => Ok [])
              (mkOptions None None (Some 10) None None None) (mkPage [] 25 1 10 (Some 3)))
    as (tp & Htp & Hb).
  - reflexivity.
  - simpl; lia.
  - simpl in Htp, Hb; exists tp; split; [exact (eq_sym Htp) | exact Hb].
Defined.

(** basicAuth lets a request through exactly when it carries credentials
    whose name and pass equal AUTH_USERNAME and AUTH_PASSWORD; in
    particular, with either variable unset every request gets 401. *)
Theorem basicAuth_passes (auth_username auth_password : option string)
        (credentials : option Credentials) :
  (basicAuth auth_username auth_password credentials = NextHandler <->
   exists c, credentials = Some c /\ auth_username = Some (cred_name c) /\
             auth_password = Some (cred_pass c)) /\
  basicAuth None auth_password credentials = Unauthorized /\
  basicAuth auth_username None credentials = Unauthorized.
Proof.
  split; [|split].
  - unfold basicAuth, js_neq_env; split.
    + destruct credentials as [c|]; [|discriminate].
      destruct auth_username as [u|], auth_password as [pw|]; simpl;
        rewrite ?orb_true_r; try discriminate.
      destruct (String.eqb_spec (cred_name c) u), (String.eqb_spec (cred_pass c) pw);
        simpl; try discriminate.
      intros _; exists c; subst; split; [|split]; reflexivity.
    + intros (c & -> & -> & ->); rewrite !String.eqb_refl; reflexivity.
  - unfold basicAuth, js_neq_env; destruct credentials; reflexivity.
  - unfold basicAuth, js_neq_env; destruct credentials; [rewrite orb_true_r|]; reflexivity.
Qed.
